(** * The Epsagon tracer (epsagon/tracer.go): buffering engine and lifecycle

    A shallow embedding of [epsagon/tracer.go].  The package keeps one
    process-wide tracer; application code hands it events and exceptions,
    and [StopTracer] makes the tracer's goroutine marshal what it has
    gathered and POST it to the collector.

    How the Go program is represented:
    - a [*Config] is an address into a heap of [Config] values, so that
      the caller and the tracer can share one value; an address that is
      not allocated stands for [nil], and reading through it panics;
    - every [epsagonTracer] ever allocated sits in a store, with the
      point its [Run] goroutine has reached; [globalTracer] is an address
      into that store, or [None] for the nil interface value;
    - [running] and [stopped] are channels that nobody sends on: all that
      can be seen of them is whether they are closed;
    - [eventsPipe], [exceptionsPipe] and [closeCmd] are unbuffered: they
      hold no data, a send is a hand-off to the goroutine waiting in the
      [select] of [Run], and the sender stays blocked when the goroutine
      cannot get there;
    - the marshaler, the HTTP client, the environment and the runtime
      version are outside the package and are parameters;
    - [log.Printf] appends to a list of messages, [client.Post] appends
      to a list of requests;
    - the application is one thread calling the exported functions in
      sequence; when the goroutine runs the steps it can take alone is
      left to the scheduler ([Sched]).  [mutex] is then always free when
      [CreateTracer] is entered and released when it leaves. *)

From stdpp Require Import gmap strings list.

Open Scope string_scope.
Open Scope list_scope.

(** ** Data *)

(** An address of a [Config] value. *)
Definition loc := nat.

Record Config := mkConfig {
  ApplicationName : string;
  Token : string;
  CollectorURL : string;
  MetadataOnly : bool;
  Debug : bool;
}.

Definition set_Debug (b : bool) (c : Config) : Config :=
  mkConfig (ApplicationName c) (Token c) (CollectorURL c) (MetadataOnly c) b.
Definition set_Token (s : string) (c : Config) : Config :=
  mkConfig (ApplicationName c) s (CollectorURL c) (MetadataOnly c) (Debug c).
Definition set_CollectorURL (s : string) (c : Config) : Config :=
  mkConfig (ApplicationName c) (Token c) s (MetadataOnly c) (Debug c).

(** The fields of [protocol.Trace] that [getTraceReader] fills. *)
Module protocol.
Record Trace (Event Exception : Type) := mkTrace {
  AppName : string;
  Token : string;
  Events : list Event;
  Exceptions : list Exception;
  Version : string;
  Platform : string;
}.
Arguments mkTrace {Event Exception}.
Arguments AppName {Event Exception}.
Arguments Token {Event Exception}.
Arguments Events {Event Exception}.
Arguments Exceptions {Event Exception}.
Arguments Version {Event Exception}.
Arguments Platform {Event Exception}.
End protocol.

(** A [chan struct{}] on which nothing is ever sent. *)
Inductive chan := Open | Closed.

(** [close(ch)]; closing a closed channel panics. *)
Definition close (ch : chan) : option chan :=
  match ch with Open => Some Closed | Closed => None end.

(** A receive with a [default] branch: it succeeds only on a closed
    channel, since there is no sender. *)
Definition isChannelPinged (ch : chan) : bool :=
  match ch with Closed => true | Open => false end.

(** What [net/http] hands back. *)
Record Response := mkResponse {
  StatusCode : nat;
  Body : string;
}.

Record Request := mkRequest {
  url : string;
  contentType : string;
  body : string;
}.

(** [Body.Read(p)] fills at most [len(p)] bytes of [p]. *)
Definition Read (p src : string) : string :=
  String.substring 0 (String.length p) src.

(** Where the goroutine started by [go globalTracer.Run()] stands. *)
Inductive goroutine :=
| AtEntry          (* started, [Run] not yet entered *)
| AtSelect         (* waiting in the [select] of the loop *)
| AtDeferRunning   (* [stopped] is closed, the reset of [running] is pending *)
| Exited.          (* [Run] has returned *)

(** ** A sample of the world outside, to run the model on

    Events and exceptions are numbered, [0] standing for a record the
    marshaler refuses; errors are their messages. *)
Module Sample.
Definition Getenv (name : string) : string :=
  if String.eqb name "AWS_REGION" then "eu-west-1"
  else if String.eqb name "EPSAGON_TOKEN" then "tok"
  else "".

Definition runtime_Version : string := "go1.12".

Definition MarshalToString (tr : protocol.Trace nat nat) : string + string :=
  if existsb (Nat.eqb 0) (protocol.Events tr) then inr "nil event"
  else inl (protocol.AppName tr ++ ":" ++ protocol.Token tr ++ ":" ++
            String.concat "," (map (fun n => String (Ascii.ascii_of_nat (48 + n)) "")
                                   (protocol.Events tr)))%string.

(** The collector answers 200. *)
Definition Post_ok (_ : list Request) (_ : Request) : option Response * option string :=
  (Some (mkResponse 200 "ok"), None).

(** The collector answers 500: a response, and no error. *)
Definition Post_500 (_ : list Request) (_ : Request) : option Response * option string :=
  (Some (mkResponse 500 "internal error"), None).

(** The collector cannot be reached: no response, and an error. *)
Definition Post_unreachable (_ : list Request) (_ : Request)
  : option Response * option string :=
  (None, Some "connection refused").

Definition config : Config := mkConfig "svc" "t1" "http://example" false false.
Definition bare_config : Config := mkConfig "svc" "" "" false false.
End Sample.

(** One more collector for the sample. *)
Module SampleErrors.
(** The collector redirects and the client refuses to follow: a response,
    its body already closed, and an error. *)
Definition Post_refused_redirect (_ : list Request) (_ : Request)
  : option Response * option string :=
  (Some (mkResponse 302 "moved"), Some "stopped after 10 redirects").
End SampleErrors.

Section Tracer.

Variables Event Exception error : Type.

Record epsagonTracer := mkTracer {
  tConfig : loc;                    (* the field [Config *Config] *)
  events : list Event;
  exceptions : list Exception;
  stopped : chan;
  running : chan;
}.

Definition set_events (l : list Event) (t : epsagonTracer) : epsagonTracer :=
  mkTracer (tConfig t) l (exceptions t) (stopped t) (running t).
Definition set_exceptions (l : list Exception) (t : epsagonTracer) : epsagonTracer :=
  mkTracer (tConfig t) (events t) l (stopped t) (running t).
Definition set_stopped (c : chan) (t : epsagonTracer) : epsagonTracer :=
  mkTracer (tConfig t) (events t) (exceptions t) c (running t).
Definition set_running (c : chan) (t : epsagonTracer) : epsagonTracer :=
  mkTracer (tConfig t) (events t) (exceptions t) (stopped t) c.

(** Running return true iff the tracer has been running *)
Definition Running (t : epsagonTracer) : bool := isChannelPinged (running t).

(** Stopped return true iff the tracer has been closed *)
Definition Stopped (t : epsagonTracer) : bool := isChannelPinged (stopped t).

Inductive LogMsg :=
| LogMarshalError (err : error)                    (* sendTraces *)
| LogSendError (err : error) (respBody : string)   (* sendTraces *)
| LogFinalTraces (traceJSON : string)              (* getTraceReader *)
| LogSettingToken                                  (* fillConfigDefaults *)
| LogSettingCollectorURL (u : string)              (* fillConfigDefaults *)
| LogAlreadyCreated                                (* CreateTracer *)
| LogCreated                                       (* CreateTracer *)
| LogAddingEvent (e : Event)                       (* AddEvent *)
| LogNotInitialized                                (* AddEvent, AddException, StopTracer *)
| LogStartedRunning                                (* Run *)
| LogStopsRunning.                                 (* Run *)

Record World := mkWorld {
  heap : gmap nat Config;
  tracers : list (epsagonTracer * goroutine);
  globalTracer : option nat;
  logged : list LogMsg;
  requests : list Request;
}.

(** ** A state monad with panics and blocked callers *)

Inductive Res (A : Type) :=
| Ok (a : A) (w : World)     (* the call returned *)
| Panic (w : World)          (* an unrecovered panic: the process is gone *)
| Blocked (w : World).       (* the caller waits on a channel for ever *)
Arguments Ok {A}.
Arguments Panic {A}.
Arguments Blocked {A}.

Definition M (A : Type) := World -> Res A.

Definition ret {A} (a : A) : M A := fun w => Ok a w.
Definition bind {A B} (m : M A) (k : A -> M B) : M B :=
  fun w => match m w with
           | Ok a w' => k a w'
           | Panic w' => Panic w'
           | Blocked w' => Blocked w'
           end.
Definition panic {A} : M A := fun w => Panic w.
Definition block {A} : M A := fun w => Blocked w.

Notation "x <- m ;; k" := (bind m (fun x => k))
  (at level 90, m at level 80, right associativity).
Notation "m ;;; k" := (bind m (fun _ => k))
  (at level 90, right associativity).

Definition when (b : bool) (m : M unit) : M unit := if b then m else ret tt.

Definition logf (m : LogMsg) : M unit :=
  fun w => Ok tt (mkWorld (heap w) (tracers w) (globalTracer w) (logged w ++ [m]) (requests w)).

Definition deref (p : loc) : M Config :=
  fun w => match heap w !! p with Some c => Ok c w | None => Panic w end.

Definition store (p : loc) (c : Config) : M unit :=
  fun w => Ok tt (mkWorld (<[p := c]> (heap w)) (tracers w) (globalTracer w) (logged w) (requests w)).

(** Assignment through a [*Config]: the target must exist. *)
Definition assign (p : loc) (f : Config -> Config) : M unit :=
  c <- deref p ;; store p (f c).

Definition tracer_at (i : nat) : M epsagonTracer :=
  fun w => match tracers w !! i with Some (t, _) => Ok t w | None => Panic w end.

Definition phase (i : nat) : M goroutine :=
  fun w => match tracers w !! i with Some (_, g) => Ok g w | None => Panic w end.

Definition update_tracer (i : nat) (f : epsagonTracer -> epsagonTracer) : M unit :=
  fun w => match tracers w !! i with
           | Some (t, g) =>
               Ok tt (mkWorld (heap w) (<[i := (f t, g)]> (tracers w)) (globalTracer w)
                              (logged w) (requests w))
           | None => Panic w
           end.

Definition set_phase (i : nat) (g : goroutine) : M unit :=
  fun w => match tracers w !! i with
           | Some (t, _) =>
               Ok tt (mkWorld (heap w) (<[i := (t, g)]> (tracers w)) (globalTracer w)
                              (logged w) (requests w))
           | None => Panic w
           end.

Definition get_global : M (option nat) := fun w => Ok (globalTracer w) w.

(** ** The world outside the package *)

Variable Getenv : string -> string.                (* os.Getenv *)
Variable runtime_Version : string.                 (* runtime.Version() *)
(** [jsonpb.Marshaler.MarshalToString]. *)
Variable MarshalToString : protocol.Trace Event Exception -> string + error.
(** [http.Client.Post], which returns a response pointer and an error;
    its answer may depend on the requests made before. *)
Variable Post : list Request -> Request -> option Response * option error.

Definition client_Post (r : Request) : M (option Response * option error) :=
  fun w => Ok (Post (requests w) r)
              (mkWorld (heap w) (tracers w) (globalTracer w) (logged w) (requests w ++ [r])).

(** ** tracer.go *)

Definition getTraceReader (i : nat) : M (string + error) :=
  t <- tracer_at i ;;
  c <- deref (tConfig t) ;;
  let trace := protocol.mkTrace (ApplicationName c) (Token c) (events t) (exceptions t)
                                "0.0.1" runtime_Version in
  match MarshalToString trace with
  | inr err => ret (inr err)
  | inl traceJSON =>
      when (Debug c) (logf (LogFinalTraces traceJSON)) ;;;
      ret (inl traceJSON)
  end.

Definition sendTraces (i : nat) : M unit :=
  r <- getTraceReader i ;;
  match r with
  | inr err => logf (LogMarshalError err)
  | inl tracesReader =>
      t <- tracer_at i ;;
      c <- deref (tConfig t) ;;
      p <- client_Post (mkRequest (CollectorURL c) "application/json" tracesReader) ;;
      match snd p with
      | None => ret tt
      | Some err =>
          match fst p with
          | None => panic                          (* resp.Body with resp == nil *)
          | Some resp =>
              let respBody := Read "" (Body resp) in
              logf (LogSendError err respBody)
          end
      end
  end.

Definition fillConfigDefaults (config : loc) : M unit :=
  c <- deref config ;;
  when (negb (Debug c))
    (when (String.eqb (Getenv "EPSAGON_DEBUG") "TRUE") (assign config (set_Debug true))) ;;;
  c <- deref config ;;
  when (Nat.eqb (String.length (Token c)) 0)
    (assign config (set_Token (Getenv "EPSAGON_TOKEN")) ;;;
     c <- deref config ;;
     when (Debug c) (logf LogSettingToken)) ;;;
  c <- deref config ;;
  when (Nat.eqb (String.length (CollectorURL c)) 0)
    (let region := Getenv "AWS_REGION" in
     (if negb (Nat.eqb (String.length region) 0)
      then assign config (set_CollectorURL ("http://" ++ region ++ ".tc.epsagon.com")%string)
      else assign config (set_CollectorURL "http://us-east-1.tc.epsagon.com")) ;;;
     c <- deref config ;;
     when (Debug c) (logf (LogSettingCollectorURL (CollectorURL c)))).

(** *** The goroutine: [Run]

    [Run] is cut where the goroutine can be seen from outside: from its
    entry to the [select]; one turn of the loop for each case of the
    [select]; and, once [stopped] is closed, the deferred reset of
    [running]. *)

(** From the entry of [Run] to the [select]. *)
Definition Run_enter (i : nat) : M unit :=
  t <- tracer_at i ;;
  c <- deref (tConfig t) ;;
  when (Debug c) (logf LogStartedRunning) ;;;
  if Running t then set_phase i Exited
  else
    match close (running t) with
    | None => panic
    | Some ch => update_tracer i (set_running ch) ;;; set_phase i AtSelect
    end.

(** [defer close(tracer.stopped)]. *)
Definition deferred_close_stopped (i : nat) : M unit :=
  t <- tracer_at i ;;
  match close (stopped t) with
  | None => panic
  | Some ch => update_tracer i (set_stopped ch)
  end.

(** [defer func() { tracer.running = make(chan struct{}) }()], after which
    [Run] has returned. *)
Definition deferred_reset_running (i : nat) : M unit :=
  update_tracer i (set_running Open) ;;; set_phase i Exited.

(** A panic in [m] runs the deferred calls [d] before the process dies. *)
Definition unwinding {A} (m : M A) (d : M unit) : M A :=
  fun w => match m w with
           | Ok a w' => Ok a w'
           | Panic w' =>
               match d w' with
               | Ok _ w'' => Panic w''
               | Panic w'' => Panic w''
               | Blocked w'' => Blocked w''
               end
           | Blocked w' => Blocked w'
           end.

(** [case event := <-tracer.eventsPipe] *)
Definition Run_event (i : nat) (event : Event) : M unit :=
  update_tracer i (fun t => set_events (events t ++ [event]) t).

(** [case exception := <-tracer.exceptionsPipe] *)
Definition Run_exception (i : nat) (exception : Exception) : M unit :=
  update_tracer i (fun t => set_exceptions (exceptions t ++ [exception]) t).

(** [case <-tracer.closeCmd], up to the deferred [close(tracer.stopped)]. *)
Definition Run_closeCmd (i : nat) : M unit :=
  t <- tracer_at i ;;
  c <- deref (tConfig t) ;;
  when (Debug c) (logf LogStopsRunning) ;;;
  unwinding (sendTraces i) (deferred_close_stopped i ;;; deferred_reset_running i) ;;;
  deferred_close_stopped i ;;;
  set_phase i AtDeferRunning.

(** A sender on one of the pipes waits until the goroutine is in the
    [select]; a goroutine that has left the loop never comes. *)
Definition await_select (i : nat) : M unit :=
  g <- phase i ;;
  match g with
  | AtEntry =>
      Run_enter i ;;;
      g' <- phase i ;;
      match g' with AtSelect => ret tt | _ => block end
  | AtSelect => ret tt
  | _ => block
  end.

(** *** Methods of [*epsagonTracer] *)

Definition tracer_AddException (i : nat) (exception : Exception) : M unit :=
  await_select i ;;;
  Run_exception i exception.

Definition tracer_AddEvent (i : nat) (event : Event) : M unit :=
  await_select i ;;;
  Run_event i event ;;;
  t <- tracer_at i ;;
  c <- deref (tConfig t) ;;
  when (Debug c) (logf (LogAddingEvent event)).

Definition tracer_Stop (i : nat) : M unit :=
  t <- tracer_at i ;;
  if isChannelPinged (stopped t) then ret tt
  else
    await_select i ;;;
    Run_closeCmd i ;;;
    t <- tracer_at i ;;
    if isChannelPinged (stopped t) then ret tt else block.

(** *** The exported functions *)

(** [globalTracer == nil || globalTracer.Stopped()] *)
Definition absent_or_stopped : M bool :=
  g <- get_global ;;
  match g with
  | None => ret true
  | Some i => t <- tracer_at i ;; ret (Stopped t)
  end.

(** [&epsagonTracer{...}]: a fresh address in the store. *)
Definition new_tracer (t : epsagonTracer) : M nat :=
  fun w => Ok (length (tracers w))
              (mkWorld (heap w) (tracers w ++ [(t, AtEntry)]) (globalTracer w)
                       (logged w) (requests w)).

Definition set_global (i : nat) : M unit :=
  fun w => Ok tt (mkWorld (heap w) (tracers w) (Some i) (logged w) (requests w)).

(** [go globalTracer.Run()] is the last statement: the goroutine it starts
    is the one [new_tracer] records at [AtEntry], and it takes its first
    step once [CreateTracer] has returned. *)
Definition CreateTracer (config : loc) : M unit :=
  b <- absent_or_stopped ;;
  if negb b then logf LogAlreadyCreated
  else
    fillConfigDefaults config ;;;
    i <- new_tracer (mkTracer config [] [] Open Open) ;;
    set_global i ;;;
    c <- deref config ;;
    when (Debug c) (logf LogCreated).

Definition AddEvent (event : Event) : M unit :=
  b <- absent_or_stopped ;;
  if b then logf LogNotInitialized
  else
    g <- get_global ;;
    match g with
    | Some i => tracer_AddEvent i event
    | None => panic
    end.

Definition AddException (exception : Exception) : M unit :=
  b <- absent_or_stopped ;;
  if b then logf LogNotInitialized
  else
    g <- get_global ;;
    match g with
    | Some i => tracer_AddException i exception
    | None => panic
    end.

Definition StopTracer : M unit :=
  b <- absent_or_stopped ;;
  if b then logf LogNotInitialized
  else
    g <- get_global ;;
    match g with
    | Some i => tracer_Stop i
    | None => panic
    end.

(** ** Runs of the process *)

(** A step the goroutine of tracer [i] can take without the application:
    enter [Run], or finish its deferred calls.  In the [select], or once
    returned, it has nothing to do. *)
Definition Sched (i : nat) : M unit :=
  fun w => match tracers w !! i with
           | Some (_, AtEntry) => Run_enter i w
           | Some (_, AtDeferRunning) => deferred_reset_running i w
           | _ => Ok tt w
           end.

Inductive op :=
| OpCreateTracer (config : loc)
| OpAddEvent (event : Event)
| OpAddException (exception : Exception)
| OpStopTracer
| OpSched (i : nat)                     (* the scheduler runs a goroutine *)
| OpAssign (p : loc) (c : Config).      (* the application writes its own [Config] *)

Definition step (o : op) : M unit :=
  match o with
  | OpCreateTracer config => CreateTracer config
  | OpAddEvent event => AddEvent event
  | OpAddException exception => AddException exception
  | OpStopTracer => StopTracer
  | OpSched i => Sched i
  | OpAssign p c => store p c
  end.

Fixpoint run (os : list op) : M unit :=
  match os with
  | [] => ret tt
  | o :: os' => step o ;;; run os'
  end.

(** A process that has just started: no tracer, nothing logged or sent. *)
Definition init : World := mkWorld ∅ [] None [] [].

Definition reachable (w : World) : Prop := exists os, run os init = Ok tt w.

(** The world a call leaves behind, however it ended. *)
Definition world_of {A} (r : Res A) : World :=
  match r with Ok _ w => w | Panic w => w | Blocked w => w end.

(** ** What the operations amount to

    Closed forms of what the code above computes; the lemmas below show
    that the code computes them. *)

(** The values [fillConfigDefaults] leaves in a [Config]. *)
Definition debug_resolved (c : Config) : bool :=
  Debug c || String.eqb (Getenv "EPSAGON_DEBUG") "TRUE".

Definition token_resolved (c : Config) : string :=
  if Nat.eqb (String.length (Token c)) 0 then Getenv "EPSAGON_TOKEN" else Token c.

Definition url_resolved (c : Config) : string :=
  if Nat.eqb (String.length (CollectorURL c)) 0
  then if Nat.eqb (String.length (Getenv "AWS_REGION")) 0
       then "http://us-east-1.tc.epsagon.com"
       else ("http://" ++ Getenv "AWS_REGION" ++ ".tc.epsagon.com")%string
  else CollectorURL c.

Definition resolved (c : Config) : Config :=
  mkConfig (ApplicationName c) (token_resolved c) (url_resolved c) (MetadataOnly c)
           (debug_resolved c).

Definition resolved_log (c : Config) : list LogMsg :=
  (if Nat.eqb (String.length (Token c)) 0 && debug_resolved c
   then [LogSettingToken] else []) ++
  (if Nat.eqb (String.length (CollectorURL c)) 0 && debug_resolved c
   then [LogSettingCollectorURL (url_resolved c)] else []).

(** Updates of one component of the world. *)
Definition log_more (l : list LogMsg) (w : World) : World :=
  mkWorld (heap w) (tracers w) (globalTracer w) (logged w ++ l) (requests w).

Definition put_tracer (i : nat) (tg : epsagonTracer * goroutine) (w : World) : World :=
  mkWorld (heap w) (<[i := tg]> (tracers w)) (globalTracer w) (logged w) (requests w).

Definition add_request (r : Request) (w : World) : World :=
  mkWorld (heap w) (tracers w) (globalTracer w) (logged w) (requests w ++ [r]).

(** What is logged under [Debug]. *)
Definition debug_log (c : Config) (m : LogMsg) : list LogMsg :=
  if Debug c then [m] else [].

(** The line [Run] logs on the way to the [select], if it is still to come. *)
Definition entry_log (g : goroutine) (c : Config) : list LogMsg :=
  match g with AtEntry => debug_log c LogStartedRunning | _ => [] end.

(** The trace [getTraceReader] builds for a tracer with configuration [c]. *)
Definition trace_of (c : Config) (t : epsagonTracer) : protocol.Trace Event Exception :=
  protocol.mkTrace (ApplicationName c) (Token c) (events t) (exceptions t)
                   "0.0.1" runtime_Version.

(** The request [sendTraces] makes for the payload [traceJSON]. *)
Definition request_of (c : Config) (traceJSON : string) : Request :=
  mkRequest (CollectorURL c) "application/json" traceJSON.

(** ** Invariants of the store *)

(** The channels of a tracer agree with the point its goroutine has reached. *)
Definition phase_ok (t : epsagonTracer) (g : goroutine) : Prop :=
  match g with
  | AtEntry => running t = Open /\ stopped t = Open
  | AtSelect => running t = Closed /\ stopped t = Open
  | AtDeferRunning => running t = Closed /\ stopped t = Closed
  | Exited => running t = Open /\ stopped t = Closed
  end.

Record wf (w : World) : Prop := mkWf {
  wf_global : forall i, globalTracer w = Some i -> i < length (tracers w);
  wf_phase : forall i t g, tracers w !! i = Some (t, g) -> phase_ok t g;
  wf_config : forall i t g, tracers w !! i = Some (t, g) -> is_Some (heap w !! tConfig t);
  wf_single : forall i t g,
      tracers w !! i = Some (t, g) -> globalTracer w <> Some i -> stopped t = Closed;
}.

(** No tracer to talk to: the singleton is nil, or its tracer has stopped. *)
Definition inactive (w : World) : Prop :=
  globalTracer w = None \/
  exists i t g, globalTracer w = Some i /\ tracers w !! i = Some (t, g) /\ Stopped t = true.

(** The singleton is tracer [i], which has not stopped; its value is [t],
    its goroutine is at [g] and its configuration reads [c]. *)
Definition active (w : World) (i : nat) (t : epsagonTracer) (g : goroutine) (c : Config) : Prop :=
  globalTracer w = Some i /\ tracers w !! i = Some (t, g) /\ Stopped t = false /\
  heap w !! tConfig t = Some c.

(** What a step of a goroutine alone, or a line in the log, leaves as it
    was: the heap, the singleton, the requests, and of every tracer its
    configuration, its buffers and whether it has stopped. *)
Definition same_buffers (w w' : World) : Prop :=
  heap w' = heap w /\ globalTracer w' = globalTracer w /\ requests w' = requests w /\
  length (tracers w') = length (tracers w) /\
  forall i t g, tracers w !! i = Some (t, g) ->
    exists t' g', tracers w' !! i = Some (t', g') /\ tConfig t' = tConfig t /\
                  events t' = events t /\ exceptions t' = exceptions t /\
                  stopped t' = stopped t.

(** The singleton is active, reads its configuration as [c], and holds the
    events [evs] and the exceptions [xs]. *)
Definition buffered (w : World) (c : Config) (evs : list Event) (xs : list Exception) : Prop :=
  exists i t g, active w i t g c /\ events t = evs /\ exceptions t = xs.

(** Every tracer whose [stopped] is closed in [w] is still there in [w'],
    with [stopped] closed. *)
Definition keeps_stopped (w w' : World) : Prop :=
  forall i t g, tracers w !! i = Some (t, g) -> stopped t = Closed ->
    exists t' g', tracers w' !! i = Some (t', g') /\ stopped t' = Closed.

(** A computation that never reopens [stopped], however it ends. *)
Definition never_reopens {A} (m : M A) : Prop :=
  forall w, keeps_stopped w (world_of (m w)).

Definition is_create (o : op) : bool :=
  match o with OpCreateTracer _ => true | _ => false end.

(** ** Sessions

    What a run of calls hands to the tracer, and how many tracers of the
    store have stopped. *)

(** Calls that feed the active tracer, and steps of the scheduler. *)
Definition is_ingest (o : op) : bool :=
  match o with
  | OpAddEvent _ | OpAddException _ | OpSched _ => true
  | _ => false
  end.

(** The events of the [AddEvent] calls of a run, in the order of the calls. *)
Fixpoint added_events (os : list op) : list Event :=
  match os with
  | [] => []
  | OpAddEvent e :: os' => e :: added_events os'
  | _ :: os' => added_events os'
  end.

(** The exceptions of the [AddException] calls of a run, in the order of
    the calls. *)
Fixpoint added_exceptions (os : list op) : list Exception :=
  match os with
  | [] => []
  | OpAddException x :: os' => x :: added_exceptions os'
  | _ :: os' => added_exceptions os'
  end.

(** The number of tracers of a store whose [stopped] is closed. *)
Fixpoint stopped_count (l : list (epsagonTracer * goroutine)) : nat :=
  match l with
  | [] => 0
  | (t, _) :: l' => (if Stopped t then 1 else 0) + stopped_count l'
  end.

(** A write of the application into its own heap. *)
Definition is_assign (o : op) : bool :=
  match o with OpAssign _ _ => true | _ => false end.

(** * Lemmas *)

Lemma World_eta (w : World) :
  mkWorld (heap w) (tracers w) (globalTracer w) (logged w) (requests w) = w.
Proof. destruct w; reflexivity. Qed.

Lemma log_more_nil w : log_more [] w = w.
Proof. unfold log_more. rewrite app_nil_r. apply World_eta. Qed.

Lemma put_tracer_same i tg w : tracers w !! i = Some tg -> put_tracer i tg w = w.
Proof. intros H. unfold put_tracer. rewrite list_insert_id by exact H. apply World_eta. Qed.

Lemma put_tracer_put i tg1 tg2 w :
  put_tracer i tg2 (put_tracer i tg1 w) = put_tracer i tg2 w.
Proof. unfold put_tracer; cbn. rewrite list_insert_insert_eq. reflexivity. Qed.

Lemma lookup_put_tracer i tg w :
  i < length (tracers w) -> tracers (put_tracer i tg w) !! i = Some tg.
Proof. intros H. cbn. apply list_lookup_insert_eq. exact H. Qed.

Lemma set_running_same t : set_running (running t) t = t.
Proof. destruct t; reflexivity. Qed.

Lemma when_debug_log c m w : when (Debug c) (logf m) w = Ok tt (log_more (debug_log c m) w).
Proof. unfold when, debug_log. destruct (Debug c); [reflexivity|]. rewrite log_more_nil. reflexivity. Qed.

Lemma tracer_at_eq i t g w : tracers w !! i = Some (t, g) -> tracer_at i w = Ok t w.
Proof. intros H. unfold tracer_at. rewrite H. reflexivity. Qed.

Lemma phase_eq i t g w : tracers w !! i = Some (t, g) -> phase i w = Ok g w.
Proof. intros H. unfold phase. rewrite H. reflexivity. Qed.

Lemma deref_eq p c w : heap w !! p = Some c -> deref p w = Ok c w.
Proof. intros H. unfold deref. rewrite H. reflexivity. Qed.

Lemma update_tracer_eq i f t g w :
  tracers w !! i = Some (t, g) -> update_tracer i f w = Ok tt (put_tracer i (f t, g) w).
Proof. intros H. unfold update_tracer. rewrite H. reflexivity. Qed.

Lemma set_phase_eq i t g g' w :
  tracers w !! i = Some (t, g) -> set_phase i g' w = Ok tt (put_tracer i (t, g') w).
Proof. intros H. unfold set_phase. rewrite H. reflexivity. Qed.

Ltac world_eq :=
  unfold log_more, put_tracer, add_request; cbn;
  rewrite ?list_insert_insert_eq, <- ?app_assoc, ?app_nil_r; cbn; reflexivity.

Lemma bind_Ok {A B} (m : M A) (k : A -> M B) a w w' :
  m w = Ok a w' -> bind m k w = k a w'.
Proof. intros H. unfold bind. rewrite H. reflexivity. Qed.

Lemma Run_enter_spec i t g c w :
  tracers w !! i = Some (t, g) -> running t = Open -> heap w !! tConfig t = Some c ->
  Run_enter i w =
  Ok tt (log_more (debug_log c LogStartedRunning) (put_tracer i (set_running Closed t, AtSelect) w)).
Proof.
  intros Ht Hr Hc. unfold Run_enter.
  rewrite (bind_Ok _ _ _ _ _ (tracer_at_eq _ _ _ _ Ht)).
  rewrite (bind_Ok _ _ _ _ _ (deref_eq _ _ _ Hc)).
  rewrite (bind_Ok _ _ _ _ _ (when_debug_log _ _ _)).
  unfold Running. rewrite Hr. cbn [isChannelPinged close].
  assert (Hi : i < length (tracers w)) by (eapply lookup_lt_Some; exact Ht).
  erewrite bind_Ok by (eapply update_tracer_eq; cbn; exact Ht).
  erewrite set_phase_eq by (apply lookup_put_tracer; exact Hi).
  rewrite put_tracer_put. reflexivity.
Qed.

Lemma await_select_spec i t g c w :
  tracers w !! i = Some (t, g) -> g = AtEntry \/ g = AtSelect -> phase_ok t g ->
  heap w !! tConfig t = Some c ->
  await_select i w =
  Ok tt (log_more (entry_log g c) (put_tracer i (set_running Closed t, AtSelect) w)).
Proof.
  intros Ht Hg Hp Hc. unfold await_select.
  rewrite (bind_Ok _ _ _ _ _ (phase_eq _ _ _ _ Ht)).
  assert (Hi : i < length (tracers w)) by (eapply lookup_lt_Some; exact Ht).
  destruct Hg as [-> | ->]; destruct Hp as [Hr Hs].
  - erewrite bind_Ok by (eapply Run_enter_spec; eassumption).
    erewrite bind_Ok by (apply phase_eq with (t := set_running Closed t);
                         apply lookup_put_tracer; exact Hi).
    reflexivity.
  - cbn [entry_log]. rewrite log_more_nil, <- Hr, set_running_same.
    rewrite put_tracer_same by exact Ht. reflexivity.
Qed.

Lemma tracer_AddEvent_spec i t g c e w :
  tracers w !! i = Some (t, g) -> g = AtEntry \/ g = AtSelect -> phase_ok t g ->
  heap w !! tConfig t = Some c ->
  tracer_AddEvent i e w =
  Ok tt (log_more (entry_log g c ++ debug_log c (LogAddingEvent e))
           (put_tracer i (set_events (events t ++ [e]) (set_running Closed t), AtSelect) w)).
Proof.
  intros Ht Hg Hp Hc. unfold tracer_AddEvent, Run_event.
  assert (Hi : i < length (tracers w)) by (eapply lookup_lt_Some; exact Ht).
  erewrite bind_Ok by (eapply await_select_spec; eassumption).
  erewrite bind_Ok by (eapply update_tracer_eq; apply lookup_put_tracer; exact Hi).
  erewrite bind_Ok by (eapply tracer_at_eq; apply lookup_put_tracer; cbn;
                       rewrite length_insert; exact Hi).
  erewrite bind_Ok by (apply deref_eq; cbn; exact Hc).
  rewrite when_debug_log. world_eq.
Qed.

Lemma tracer_AddException_spec i t g c x w :
  tracers w !! i = Some (t, g) -> g = AtEntry \/ g = AtSelect -> phase_ok t g ->
  heap w !! tConfig t = Some c ->
  tracer_AddException i x w =
  Ok tt (log_more (entry_log g c)
           (put_tracer i (set_exceptions (exceptions t ++ [x]) (set_running Closed t), AtSelect) w)).
Proof.
  intros Ht Hg Hp Hc. unfold tracer_AddException, Run_exception.
  assert (Hi : i < length (tracers w)) by (eapply lookup_lt_Some; exact Ht).
  erewrite bind_Ok by (eapply await_select_spec; eassumption).
  erewrite update_tracer_eq by (apply lookup_put_tracer; exact Hi).
  world_eq.
Qed.

(** *** The configuration resolver *)

Lemma Ok_heap_log {A} (a : A) h h' ts g l l' r :
  h = h' -> l = l' -> Ok a (mkWorld h ts g l r) = Ok a (mkWorld h' ts g l' r).
Proof. intros -> ->. reflexivity. Qed.

Lemma fillConfigDefaults_spec p c w :
  heap w !! p = Some c ->
  fillConfigDefaults p w =
  Ok tt (mkWorld (<[p := resolved c]> (heap w)) (tracers w) (globalTracer w)
                 (logged w ++ resolved_log c) (requests w)).
Proof.
  intros H. destruct w as [h ts g l r]. cbn in H.
  destruct c as [a t u m d].
  unfold fillConfigDefaults, resolved, resolved_log, debug_resolved, token_resolved,
    url_resolved, assign, when, bind, deref, store, logf, ret.
  destruct (String.eqb (Getenv "EPSAGON_DEBUG") "TRUE") eqn:Ed;
  destruct (String.length t =? 0)%nat eqn:Et;
  destruct (String.length u =? 0)%nat eqn:Eu;
  destruct (String.length (Getenv "AWS_REGION") =? 0)%nat eqn:Er;
  destruct d;
  repeat (cbn; first [rewrite H | rewrite lookup_insert_eq | rewrite Ed | rewrite Et
                      | rewrite Eu | rewrite Er ]);
  unfold set_Debug, set_Token, set_CollectorURL; cbn;
  (apply Ok_heap_log;
   [ rewrite ?insert_insert_eq; first [reflexivity | symmetry; apply insert_id; assumption]
   | rewrite <- ?app_assoc, ?app_nil_r; reflexivity ]).
Qed.

(** *** The flush *)

(** [respBody] is a nil slice: [Read] leaves it empty. *)
Lemma Read_nil src : Read "" src = "".
Proof. unfold Read. destruct src; reflexivity. Qed.

Lemma getTraceReader_spec i t g c w :
  tracers w !! i = Some (t, g) -> heap w !! tConfig t = Some c ->
  getTraceReader i w =
  match MarshalToString (trace_of c t) with
  | inr err => Ok (inr err) w
  | inl traceJSON => Ok (inl traceJSON) (log_more (debug_log c (LogFinalTraces traceJSON)) w)
  end.
Proof.
  intros Ht Hc. unfold getTraceReader.
  erewrite bind_Ok by (eapply tracer_at_eq; exact Ht).
  erewrite bind_Ok by (eapply deref_eq; exact Hc).
  fold (trace_of c t). destruct (MarshalToString (trace_of c t)); [|reflexivity].
  erewrite bind_Ok by apply when_debug_log. reflexivity.
Qed.

Lemma sendTraces_marshal_error i t g c err w :
  tracers w !! i = Some (t, g) -> heap w !! tConfig t = Some c ->
  MarshalToString (trace_of c t) = inr err ->
  sendTraces i w = Ok tt (log_more [LogMarshalError err] w).
Proof.
  intros Ht Hc Hm. unfold sendTraces.
  erewrite bind_Ok by (erewrite getTraceReader_spec by eassumption; rewrite Hm; reflexivity).
  reflexivity.
Qed.

Lemma sendTraces_posts i t g c traceJSON w :
  tracers w !! i = Some (t, g) -> heap w !! tConfig t = Some c ->
  MarshalToString (trace_of c t) = inl traceJSON ->
  let w1 := add_request (request_of c traceJSON)
              (log_more (debug_log c (LogFinalTraces traceJSON)) w) in
  sendTraces i w =
  match Post (requests w) (request_of c traceJSON) with
  | (_, None) => Ok tt w1
  | (Some resp, Some err) => Ok tt (log_more [LogSendError err ""] w1)
  | (None, Some err) => Panic w1
  end.
Proof.
  intros Ht Hc Hm w1. unfold sendTraces.
  erewrite bind_Ok by (erewrite getTraceReader_spec by eassumption; rewrite Hm; reflexivity).
  cbn beta iota.
  erewrite bind_Ok by (eapply tracer_at_eq; cbn; exact Ht).
  erewrite bind_Ok by (eapply deref_eq; cbn; exact Hc).
  erewrite bind_Ok by reflexivity.
  fold (request_of c traceJSON). cbn [requests log_more].
  destruct (Post (requests w) (request_of c traceJSON)) as [[resp|] [err|]];
    cbn [fst snd]; rewrite ?Read_nil; reflexivity.
Qed.

(** The flush touches neither the store nor the heap nor the singleton. *)
Lemma sendTraces_frame i w :
  tracers (world_of (sendTraces i w)) = tracers w /\
  heap (world_of (sendTraces i w)) = heap w /\
  globalTracer (world_of (sendTraces i w)) = globalTracer w.
Proof.
  unfold sendTraces, getTraceReader, bind, tracer_at, deref, when, logf, ret, client_Post, panic.
  destruct (tracers w !! i) as [[t g]|] eqn:Ht; cbn; [|auto].
  destruct (heap w !! tConfig t) as [c|] eqn:Hc; cbn; [|auto].
  destruct (MarshalToString _); cbn; [|auto].
  destruct (Debug c); cbn; rewrite Ht; cbn; rewrite Hc; cbn;
    destruct (Post _ _) as [[resp|] [err|]]; cbn; auto.
Qed.

Lemma Run_closeCmd_spec i t g c w :
  tracers w !! i = Some (t, g) -> stopped t = Open -> heap w !! tConfig t = Some c ->
  Run_closeCmd i w =
  match sendTraces i (log_more (debug_log c LogStopsRunning) w) with
  | Ok _ w' => Ok tt (put_tracer i (set_stopped Closed t, AtDeferRunning) w')
  | Panic w' => Panic (put_tracer i (set_running Open (set_stopped Closed t), Exited) w')
  | Blocked w' => Blocked w'
  end.
Proof.
  intros Ht Hs Hc. unfold Run_closeCmd.
  assert (Hi : i < length (tracers w)) by (eapply lookup_lt_Some; exact Ht).
  erewrite bind_Ok by (eapply tracer_at_eq; exact Ht).
  erewrite bind_Ok by (eapply deref_eq; exact Hc).
  erewrite bind_Ok by apply when_debug_log.
  pose proof (sendTraces_frame i (log_more (debug_log c LogStopsRunning) w)) as (Hts & _ & _).
  unfold bind at 1. unfold unwinding.
  destruct (sendTraces i (log_more (debug_log c LogStopsRunning) w)) as [[] w'|w'|w'];
    cbn [world_of] in Hts; cbn [log_more tracers] in Hts.
  - unfold deferred_close_stopped.
    erewrite bind_Ok by (erewrite bind_Ok by (eapply tracer_at_eq; rewrite Hts; exact Ht);
                         rewrite Hs; cbn [close];
                         eapply update_tracer_eq; rewrite Hts; exact Ht).
    erewrite set_phase_eq by (apply lookup_put_tracer; rewrite Hts; exact Hi).
    rewrite put_tracer_put. reflexivity.
  - unfold deferred_close_stopped, deferred_reset_running.
    erewrite bind_Ok by (erewrite bind_Ok by (eapply tracer_at_eq; rewrite Hts; exact Ht);
                         rewrite Hs; cbn [close];
                         eapply update_tracer_eq; rewrite Hts; exact Ht).
    erewrite bind_Ok by (eapply update_tracer_eq; apply lookup_put_tracer; rewrite Hts; exact Hi).
    erewrite set_phase_eq
      by (rewrite put_tracer_put; apply lookup_put_tracer; rewrite Hts; exact Hi).
    rewrite !put_tracer_put. reflexivity.
  - reflexivity.
Qed.

(** The closed form of [Stop] on a tracer that has not stopped. *)
Lemma tracer_Stop_spec i t g c w :
  tracers w !! i = Some (t, g) -> g = AtEntry \/ g = AtSelect -> phase_ok t g ->
  heap w !! tConfig t = Some c ->
  let w0 := log_more (entry_log g c ++ debug_log c LogStopsRunning) w in
  let t' := set_stopped Closed (set_running Closed t) in
  tracer_Stop i w =
  match MarshalToString (trace_of c t) with
  | inr err => Ok tt (put_tracer i (t', AtDeferRunning) (log_more [LogMarshalError err] w0))
  | inl traceJSON =>
      let w1 := add_request (request_of c traceJSON)
                  (log_more (debug_log c (LogFinalTraces traceJSON)) w0) in
      match Post (requests w) (request_of c traceJSON) with
      | (_, None) => Ok tt (put_tracer i (t', AtDeferRunning) w1)
      | (Some resp, Some err) =>
          Ok tt (put_tracer i (t', AtDeferRunning) (log_more [LogSendError err ""] w1))
      | (None, Some err) => Panic (put_tracer i (set_running Open t', Exited) w1)
      end
  end.
Proof.
  intros Ht Hg Hp Hc w0 t'. unfold tracer_Stop.
  assert (Hi : i < length (tracers w)) by (eapply lookup_lt_Some; exact Ht).
  assert (Hs : stopped t = Open) by (destruct Hg as [-> | ->]; apply Hp).
  erewrite bind_Ok by (eapply tracer_at_eq; exact Ht).
  rewrite Hs. cbn [isChannelPinged].
  erewrite bind_Ok by (eapply await_select_spec; eassumption).
  set (w2 := log_more (entry_log g c) (put_tracer i (set_running Closed t, AtSelect) w)).
  assert (Ht2 : tracers w2 !! i = Some (set_running Closed t, AtSelect))
    by (apply lookup_put_tracer; exact Hi).
  assert (Hc2 : heap w2 !! tConfig (set_running Closed t) = Some c) by exact Hc.
  unfold bind at 1.
  rewrite (Run_closeCmd_spec i _ _ _ w2 Ht2 Hs Hc2).
  set (w3 := log_more (debug_log c LogStopsRunning) w2).
  assert (Ht3 : tracers w3 !! i = Some (set_running Closed t, AtSelect)) by exact Ht2.
  assert (Hc3 : heap w3 !! tConfig (set_running Closed t) = Some c) by exact Hc.
  change (trace_of c t) with (trace_of c (set_running Closed t)).
  destruct (MarshalToString (trace_of c (set_running Closed t))) as [traceJSON|err] eqn:Hm.
  - rewrite (sendTraces_posts i _ _ _ _ w3 Ht3 Hc3 Hm).
    change (requests w3) with (requests w).
    destruct (Post (requests w) (request_of c traceJSON)) as [[resp|] [err|]];
      cbn beta iota;
      try (erewrite bind_Ok
             by (eapply tracer_at_eq with (t := t'); apply lookup_put_tracer; cbn;
                 rewrite length_insert; exact Hi);
           cbn [stopped t' set_stopped isChannelPinged]; unfold ret);
      subst w0 w3 w2; world_eq.
  - rewrite (sendTraces_marshal_error i _ _ _ _ w3 Ht3 Hc3 Hm). cbn beta iota.
    erewrite bind_Ok
      by (eapply tracer_at_eq with (t := t'); apply lookup_put_tracer; cbn;
          rewrite length_insert; exact Hi).
    cbn [stopped t' set_stopped isChannelPinged]. unfold ret.
    subst w0 w3 w2. world_eq.
Qed.

(** *** The exported functions *)

Lemma Stopped_true t : Stopped t = true <-> stopped t = Closed.
Proof. unfold Stopped. destruct (stopped t); cbn; split; congruence. Qed.

Lemma Stopped_false t : Stopped t = false <-> stopped t = Open.
Proof. unfold Stopped. destruct (stopped t); cbn; split; congruence. Qed.

Lemma absent_or_stopped_inactive w : inactive w -> absent_or_stopped w = Ok true w.
Proof.
  intros [Hg | (i & t & g & Hg & Ht & Hs)]; unfold absent_or_stopped, bind, get_global;
    rewrite Hg; [reflexivity|].
  unfold tracer_at. rewrite Ht. unfold ret. rewrite Hs. reflexivity.
Qed.

Lemma absent_or_stopped_active w i t g c : active w i t g c -> absent_or_stopped w = Ok false w.
Proof.
  intros (Hg & Ht & Hs & _). unfold absent_or_stopped, bind, get_global.
  rewrite Hg. unfold tracer_at. rewrite Ht. unfold ret. rewrite Hs. reflexivity.
Qed.

Lemma AddEvent_inactive e w : inactive w -> AddEvent e w = Ok tt (log_more [LogNotInitialized] w).
Proof.
  intros H. unfold AddEvent. erewrite bind_Ok by (apply absent_or_stopped_inactive; exact H).
  reflexivity.
Qed.

Lemma AddException_inactive x w :
  inactive w -> AddException x w = Ok tt (log_more [LogNotInitialized] w).
Proof.
  intros H. unfold AddException. erewrite bind_Ok by (apply absent_or_stopped_inactive; exact H).
  reflexivity.
Qed.

Lemma StopTracer_inactive w : inactive w -> StopTracer w = Ok tt (log_more [LogNotInitialized] w).
Proof.
  intros H. unfold StopTracer. erewrite bind_Ok by (apply absent_or_stopped_inactive; exact H).
  reflexivity.
Qed.

Lemma AddEvent_active e w i t g c : active w i t g c -> AddEvent e w = tracer_AddEvent i e w.
Proof.
  intros H. unfold AddEvent. erewrite bind_Ok by (eapply absent_or_stopped_active; exact H).
  destruct H as (Hg & _). unfold bind at 1, get_global. rewrite Hg. reflexivity.
Qed.

Lemma AddException_active x w i t g c :
  active w i t g c -> AddException x w = tracer_AddException i x w.
Proof.
  intros H. unfold AddException. erewrite bind_Ok by (eapply absent_or_stopped_active; exact H).
  destruct H as (Hg & _). unfold bind at 1, get_global. rewrite Hg. reflexivity.
Qed.

Lemma StopTracer_active w i t g c : active w i t g c -> StopTracer w = tracer_Stop i w.
Proof.
  intros H. unfold StopTracer. erewrite bind_Ok by (eapply absent_or_stopped_active; exact H).
  destruct H as (Hg & _). unfold bind at 1, get_global. rewrite Hg. reflexivity.
Qed.

Lemma CreateTracer_active p w i t g c :
  active w i t g c -> CreateTracer p w = Ok tt (log_more [LogAlreadyCreated] w).
Proof.
  intros H. unfold CreateTracer. erewrite bind_Ok by (eapply absent_or_stopped_active; exact H).
  reflexivity.
Qed.

(** The world a successful [CreateTracer] builds. *)
Lemma CreateTracer_inactive p c w :
  inactive w -> heap w !! p = Some c ->
  CreateTracer p w =
  Ok tt (mkWorld (<[p := resolved c]> (heap w))
                 (tracers w ++ [(mkTracer p [] [] Open Open, AtEntry)])
                 (Some (length (tracers w)))
                 (logged w ++ resolved_log c ++ debug_log (resolved c) LogCreated)
                 (requests w)).
Proof.
  intros H Hc. unfold CreateTracer.
  erewrite bind_Ok by (apply absent_or_stopped_inactive; exact H). cbn [negb].
  erewrite bind_Ok by (apply fillConfigDefaults_spec; exact Hc).
  erewrite bind_Ok by reflexivity.
  erewrite bind_Ok by reflexivity.
  erewrite bind_Ok by (apply deref_eq; cbn; apply lookup_insert_eq).
  rewrite when_debug_log. world_eq.
Qed.

Lemma CreateTracer_nil p w : inactive w -> heap w !! p = None -> CreateTracer p w = Panic w.
Proof.
  intros H Hc. unfold CreateTracer.
  erewrite bind_Ok by (apply absent_or_stopped_inactive; exact H). cbn [negb].
  unfold bind at 1, fillConfigDefaults, bind at 1, deref. rewrite Hc. reflexivity.
Qed.

(** *** The invariant *)

Lemma wf_init : wf init.
Proof. split; cbn; intros; try discriminate; rewrite lookup_nil in *; discriminate. Qed.

Lemma wf_log_more l w : wf w -> wf (log_more l w).
Proof. intros [H1 H2 H3 H4]. split; assumption. Qed.

Lemma wf_add_request r w : wf w -> wf (add_request r w).
Proof. intros [H1 H2 H3 H4]. split; assumption. Qed.

Lemma wf_put_tracer i t g t' g' w :
  wf w -> tracers w !! i = Some (t, g) ->
  phase_ok t' g' -> tConfig t' = tConfig t -> (stopped t = Closed -> stopped t' = Closed) ->
  wf (put_tracer i (t', g') w).
Proof.
  intros [H1 H2 H3 H4] Ht Hp Hc Hs.
  assert (Hi : i < length (tracers w)) by (eapply lookup_lt_Some; exact Ht).
  split; cbn.
  - intros j Hj. rewrite length_insert. auto.
  - intros j t0 g0. destruct (decide (i = j)) as [<-|Hne].
    + rewrite list_lookup_insert_eq by exact Hi. intros [= <- <-]. exact Hp.
    + rewrite list_lookup_insert_ne by exact Hne. apply H2.
  - intros j t0 g0. destruct (decide (i = j)) as [<-|Hne].
    + rewrite list_lookup_insert_eq by exact Hi. intros [= <- <-]. rewrite Hc. eapply H3, Ht.
    + rewrite list_lookup_insert_ne by exact Hne. apply H3.
  - intros j t0 g0. destruct (decide (i = j)) as [<-|Hne].
    + rewrite list_lookup_insert_eq by exact Hi. intros [= <- <-] Hg. eapply Hs, H4; eassumption.
    + rewrite list_lookup_insert_ne by exact Hne. apply H4.
Qed.

Lemma wf_store p c w :
  wf w -> wf (mkWorld (<[p := c]> (heap w)) (tracers w) (globalTracer w) (logged w) (requests w)).
Proof.
  intros [H1 H2 H3 H4]. split; cbn; try assumption.
  intros i t g Ht. rewrite lookup_insert_is_Some.
  destruct (decide (p = tConfig t)); [left; assumption | right; split; [assumption|]].
  eapply H3, Ht.
Qed.

(** Under the invariant the singleton is either of no use or active. *)
Lemma wf_cases w : wf w -> inactive w \/ exists i t g c, active w i t g c.
Proof.
  intros Hw. destruct (globalTracer w) as [i|] eqn:Hg; [|left; left; exact Hg].
  pose proof (wf_global w Hw i Hg) as Hi.
  destruct (lookup_lt_is_Some_2 _ _ Hi) as [[t g] Ht].
  destruct (Stopped t) eqn:Hs.
  - left. right. exists i, t, g. auto.
  - destruct (wf_config w Hw i t g Ht) as [c Hc]. right. exists i, t, g, c.
    repeat split; assumption.
Qed.

(** A tracer that has not stopped has its goroutine before or in the loop. *)
Lemma wf_live w i t g :
  wf w -> tracers w !! i = Some (t, g) -> Stopped t = false ->
  (g = AtEntry \/ g = AtSelect) /\ phase_ok t g.
Proof.
  intros Hw Ht Hs. pose proof (wf_phase w Hw i t g Ht) as Hp. split; [|exact Hp].
  apply Stopped_false in Hs.
  destruct g; cbn in Hp; destruct Hp as [? ?]; auto; congruence.
Qed.

Lemma wf_new_tracer p c w l :
  wf w -> inactive w ->
  wf (mkWorld (<[p := c]> (heap w)) (tracers w ++ [(mkTracer p [] [] Open Open, AtEntry)])
              (Some (length (tracers w))) l (requests w)).
Proof.
  intros [H1 H2 H3 H4] Hin. split; cbn.
  - intros i [= <-]. rewrite length_app. cbn. lia.
  - intros i t g Ht. apply lookup_app_Some in Ht as [Ht | [_ Ht]]; [eapply H2, Ht|].
    apply list_lookup_singleton_Some in Ht as [_ [= <- <-]]. split; reflexivity.
  - intros i t g Ht. rewrite lookup_insert_is_Some.
    apply lookup_app_Some in Ht as [Ht | [_ Ht]].
    + destruct (decide (p = tConfig t)); [left; assumption | right; split; [assumption|]].
      eapply H3, Ht.
    + apply list_lookup_singleton_Some in Ht as [_ [= <- <-]]. left. reflexivity.
  - intros i t g Ht Hne. apply lookup_app_Some in Ht as [Ht | [Hge Ht]].
    + destruct Hin as [Hg | (j & t0 & g0 & Hg & Ht0 & Hs)].
      * eapply H4; [exact Ht | congruence].
      * destruct (decide (i = j)) as [->|Hij].
        -- rewrite Ht in Ht0. injection Ht0 as <- <-. apply Stopped_true, Hs.
        -- eapply H4; [exact Ht | congruence].
    + apply list_lookup_singleton_Some in Ht as [Hi _].
      exfalso. apply Hne. f_equal. lia.
Qed.

Lemma wf_CreateTracer p w w' : wf w -> CreateTracer p w = Ok tt w' -> wf w'.
Proof.
  intros Hw. destruct (wf_cases w Hw) as [Hin | (i & t & g & c & Hact)].
  - destruct (heap w !! p) as [c|] eqn:Hc.
    + rewrite (CreateTracer_inactive p c w Hin Hc). intros [= <-].
      apply wf_new_tracer; assumption.
    + rewrite (CreateTracer_nil p w Hin Hc). discriminate.
  - rewrite (CreateTracer_active p w i t g c Hact). intros [= <-]. apply wf_log_more, Hw.
Qed.

Lemma wf_AddEvent e w w' : wf w -> AddEvent e w = Ok tt w' -> wf w'.
Proof.
  intros Hw. destruct (wf_cases w Hw) as [Hin | (i & t & g & c & Hact)].
  - rewrite (AddEvent_inactive e w Hin). intros [= <-]. apply wf_log_more, Hw.
  - rewrite (AddEvent_active e w i t g c Hact). destruct Hact as (Hg & Ht & Hs & Hc).
    destruct (wf_live w i t g Hw Ht Hs) as [Hph Hp].
    rewrite (tracer_AddEvent_spec i t g c e w Ht Hph Hp Hc). intros [= <-].
    apply wf_log_more. eapply wf_put_tracer; try eassumption; try reflexivity.
    + split; [reflexivity|]. cbn. apply Stopped_false, Hs.
    + cbn. auto.
Qed.

Lemma wf_AddException x w w' : wf w -> AddException x w = Ok tt w' -> wf w'.
Proof.
  intros Hw. destruct (wf_cases w Hw) as [Hin | (i & t & g & c & Hact)].
  - rewrite (AddException_inactive x w Hin). intros [= <-]. apply wf_log_more, Hw.
  - rewrite (AddException_active x w i t g c Hact). destruct Hact as (Hg & Ht & Hs & Hc).
    destruct (wf_live w i t g Hw Ht Hs) as [Hph Hp].
    rewrite (tracer_AddException_spec i t g c x w Ht Hph Hp Hc). intros [= <-].
    apply wf_log_more. eapply wf_put_tracer; try eassumption; try reflexivity.
    + split; [reflexivity|]. cbn. apply Stopped_false, Hs.
    + cbn. auto.
Qed.

Lemma wf_tracer_Stop i t g w w' :
  wf w -> tracers w !! i = Some (t, g) -> tracer_Stop i w = Ok tt w' -> wf w'.
Proof.
  intros Hw Ht. destruct (Stopped t) eqn:Hs.
  - unfold tracer_Stop. erewrite bind_Ok by (eapply tracer_at_eq; exact Ht).
    fold (Stopped t). rewrite Hs. intros [= <-]. exact Hw.
  - destruct (wf_live w i t g Hw Ht Hs) as [Hph Hp].
    destruct (wf_config w Hw i t g Ht) as [c Hc].
    rewrite (tracer_Stop_spec i t g c w Ht Hph Hp Hc).
    assert (Hdone : forall w1, wf w1 -> tracers w1 = tracers w ->
              wf (put_tracer i (set_stopped Closed (set_running Closed t), AtDeferRunning) w1)).
    { intros w1 Hw1 Hts. eapply wf_put_tracer; try exact Hw1.
      - rewrite Hts. exact Ht.
      - split; reflexivity.
      - reflexivity.
      - reflexivity. }
    destruct (MarshalToString (trace_of c t)) as [traceJSON|err].
    + destruct (Post _ _) as [[resp|] [err|]]; intros [= <-];
        apply Hdone; repeat first [apply wf_log_more | apply wf_add_request]; auto.
    + intros [= <-]. apply Hdone; repeat first [apply wf_log_more | apply wf_add_request]; auto.
Qed.

Lemma wf_StopTracer w w' : wf w -> StopTracer w = Ok tt w' -> wf w'.
Proof.
  intros Hw. destruct (wf_cases w Hw) as [Hin | (i & t & g & c & Hact)].
  - rewrite (StopTracer_inactive w Hin). intros [= <-]. apply wf_log_more, Hw.
  - rewrite (StopTracer_active w i t g c Hact). destruct Hact as (Hg & Ht & Hs & Hc).
    eapply wf_tracer_Stop; eassumption.
Qed.

(** *** The scheduler *)

Lemma same_buffers_refl w : same_buffers w w.
Proof. repeat split. intros i t g Ht. exists t, g. auto. Qed.

Lemma same_buffers_trans w1 w2 w3 :
  same_buffers w1 w2 -> same_buffers w2 w3 -> same_buffers w1 w3.
Proof.
  intros (Ha1 & Ha2 & Ha3 & Ha4 & Ha5) (Hb1 & Hb2 & Hb3 & Hb4 & Hb5).
  repeat split; try congruence.
  intros i t g Ht. destruct (Ha5 i t g Ht) as (t' & g' & Ht' & ? & ? & ? & ?).
  destruct (Hb5 i t' g' Ht') as (t'' & g'' & Ht'' & ? & ? & ? & ?).
  exists t'', g''. repeat split; congruence.
Qed.

Lemma same_buffers_log_more l w : same_buffers w (log_more l w).
Proof. repeat split. intros i t g Ht. exists t, g. auto. Qed.

Lemma same_buffers_put_tracer i t g t' g' w :
  tracers w !! i = Some (t, g) ->
  tConfig t' = tConfig t -> events t' = events t -> exceptions t' = exceptions t ->
  stopped t' = stopped t ->
  same_buffers w (put_tracer i (t', g') w).
Proof.
  intros Ht H1 H2 H3 H4.
  assert (Hi : i < length (tracers w)) by (eapply lookup_lt_Some; exact Ht).
  repeat split; cbn; [apply length_insert|].
  intros j t0 g0 Hj. destruct (decide (i = j)) as [<-|Hne].
  - rewrite list_lookup_insert_eq by exact Hi. rewrite Ht in Hj. injection Hj as <- <-.
    exists t', g'. auto.
  - rewrite list_lookup_insert_ne by exact Hne. exists t0, g0. auto.
Qed.

Lemma Sched_spec j w :
  wf w -> exists w', Sched j w = Ok tt w' /\ wf w' /\ same_buffers w w'.
Proof.
  intros Hw. unfold Sched.
  destruct (tracers w !! j) as [[t g]|] eqn:Ht;
    [|exists w; auto using same_buffers_refl].
  pose proof (wf_phase w Hw j t g Ht) as Hp.
  assert (Hj : j < length (tracers w)) by (eapply lookup_lt_Some; exact Ht).
  destruct g; [| exists w; auto using same_buffers_refl | | exists w; auto using same_buffers_refl].
  - destruct Hp as [Hr Hs]. destruct (wf_config w Hw j t _ Ht) as [c Hc].
    rewrite (Run_enter_spec j t _ c w Ht Hr Hc). eexists. split; [reflexivity|]. split.
    + apply wf_log_more. eapply wf_put_tracer; try eassumption; try reflexivity; cbn; auto.
    + eapply same_buffers_trans; [|apply same_buffers_log_more].
      eapply same_buffers_put_tracer; try exact Ht; reflexivity.
  - destruct Hp as [Hr Hs]. unfold deferred_reset_running.
    erewrite bind_Ok by (eapply update_tracer_eq; exact Ht).
    erewrite set_phase_eq by (apply lookup_put_tracer; exact Hj).
    rewrite put_tracer_put. eexists. split; [reflexivity|]. split.
    + eapply wf_put_tracer; try eassumption; try reflexivity; cbn; auto.
    + eapply same_buffers_put_tracer; try exact Ht; reflexivity.
Qed.

Lemma wf_step o w w' : wf w -> step o w = Ok tt w' -> wf w'.
Proof.
  intros Hw. destruct o as [p|e|x| |j|p c]; cbn [step].
  - apply wf_CreateTracer, Hw.
  - apply wf_AddEvent, Hw.
  - apply wf_AddException, Hw.
  - apply wf_StopTracer, Hw.
  - destruct (Sched_spec j w Hw) as (w1 & -> & Hw1 & _). intros [= <-]. exact Hw1.
  - intros [= <-]. apply wf_store, Hw.
Qed.

Lemma run_cons o os w : run (o :: os) w = bind (step o) (fun _ => run os) w.
Proof. reflexivity. Qed.

Lemma run_app os1 os2 w w1 : run os1 w = Ok tt w1 -> run (os1 ++ os2) w = run os2 w1.
Proof.
  revert w. induction os1 as [|o os1 IH]; intros w.
  - intros [= <-]. reflexivity.
  - cbn [app]. rewrite !run_cons. unfold bind.
    destruct (step o w) as [[] w2|w2|w2]; try discriminate. apply IH.
Qed.

Lemma wf_run os w w' : wf w -> run os w = Ok tt w' -> wf w'.
Proof.
  revert w. induction os as [|o os IH]; intros w Hw.
  - intros [= <-]. exact Hw.
  - rewrite run_cons. unfold bind.
    destruct (step o w) as [[] w1|w1|w1] eqn:Hs; try discriminate.
    apply IH. eapply wf_step; eassumption.
Qed.

Lemma wf_reachable w : reachable w -> wf w.
Proof. intros [os H]. eapply wf_run; [apply wf_init | exact H]. Qed.

(** *** The buffers of the active tracer *)

Lemma buffered_same_buffers w w' c evs xs :
  same_buffers w w' -> buffered w c evs xs -> buffered w' c evs xs.
Proof.
  intros (H1 & H2 & H3 & H4 & H5) (i & t & g & (Hg & Ht & Hs & Hc) & He & Hx).
  destruct (H5 i t g Ht) as (t' & g' & Ht' & Hc' & He' & Hx' & Hs').
  exists i, t', g'. unfold active, Stopped in *.
  rewrite H1, H2, Hs', Hc'. repeat split; congruence.
Qed.

Lemma CreateTracer_buffered p c w :
  wf w -> inactive w -> heap w !! p = Some c ->
  exists w', CreateTracer p w = Ok tt w' /\ wf w' /\ buffered w' (resolved c) [] [] /\
             requests w' = requests w.
Proof.
  intros Hw Hin Hc. eexists. split; [apply CreateTracer_inactive; eassumption|].
  split; [apply wf_new_tracer; assumption|]. split; [|reflexivity].
  exists (length (tracers w)), (mkTracer p [] [] Open Open), AtEntry.
  split; [|split; reflexivity]. unfold active; cbn.
  split; [reflexivity|]. split; [|split; [reflexivity | apply lookup_insert_eq]].
  rewrite lookup_app_r by lia. rewrite Nat.sub_diag. reflexivity.
Qed.

Lemma AddEvent_buffered e c evs xs w :
  wf w -> buffered w c evs xs ->
  exists w', AddEvent e w = Ok tt w' /\ wf w' /\ buffered w' c (evs ++ [e]) xs /\
             requests w' = requests w.
Proof.
  intros Hw (i & t & g & Hact & He & Hx).
  pose proof Hact as (Hg & Ht & Hs & Hc).
  destruct (wf_live w i t g Hw Ht Hs) as [Hph Hp].
  assert (Hi : i < length (tracers w)) by (eapply lookup_lt_Some; exact Ht).
  pose proof (AddEvent_active e w i t g c Hact) as Heq.
  rewrite (tracer_AddEvent_spec i t g c e w Ht Hph Hp Hc) in Heq.
  eexists. split; [exact Heq|]. split; [eapply wf_AddEvent; eassumption|].
  split; [|reflexivity].
  exists i, (set_events (events t ++ [e]) (set_running Closed t)), AtSelect.
  split; [|split; cbn; [rewrite He; reflexivity | exact Hx]].
  split; [exact Hg|]. split; [apply list_lookup_insert_eq, Hi|]. split; [exact Hs | exact Hc].
Qed.

Lemma AddException_buffered x c evs xs w :
  wf w -> buffered w c evs xs ->
  exists w', AddException x w = Ok tt w' /\ wf w' /\ buffered w' c evs (xs ++ [x]) /\
             requests w' = requests w.
Proof.
  intros Hw (i & t & g & Hact & He & Hx).
  pose proof Hact as (Hg & Ht & Hs & Hc).
  destruct (wf_live w i t g Hw Ht Hs) as [Hph Hp].
  assert (Hi : i < length (tracers w)) by (eapply lookup_lt_Some; exact Ht).
  pose proof (AddException_active x w i t g c Hact) as Heq.
  rewrite (tracer_AddException_spec i t g c x w Ht Hph Hp Hc) in Heq.
  eexists. split; [exact Heq|]. split; [eapply wf_AddException; eassumption|].
  split; [|reflexivity].
  exists i, (set_exceptions (exceptions t ++ [x]) (set_running Closed t)), AtSelect.
  split; [|split; cbn; [exact He | rewrite Hx; reflexivity]].
  split; [exact Hg|]. split; [apply list_lookup_insert_eq, Hi|]. split; [exact Hs | exact Hc].
Qed.

(** However the scheduler runs the goroutines between two calls, the
    buffers and the requests stay as they were. *)
Lemma Sched_run_buffered js c evs xs w :
  wf w -> buffered w c evs xs ->
  exists w', run (map OpSched js) w = Ok tt w' /\ wf w' /\ buffered w' c evs xs /\
             requests w' = requests w.
Proof.
  revert w. induction js as [|j js IH]; intros w Hw Hb.
  - exists w. auto.
  - destruct (Sched_spec j w Hw) as (w1 & Hs & Hw1 & Hsb).
    destruct (IH w1 Hw1 (buffered_same_buffers _ _ _ _ _ Hsb Hb)) as (w2 & Hr & Hw2 & Hb2 & Hq).
    exists w2. cbn [map]. rewrite run_cons. erewrite bind_Ok by (cbn [step]; exact Hs).
    split; [exact Hr|]. split; [exact Hw2|]. split; [exact Hb2|].
    rewrite Hq. apply Hsb.
Qed.

(** The flush of the active tracer posts the marshaled buffers once. *)
Lemma StopTracer_buffered c evs xs traceJSON w :
  wf w -> buffered w c evs xs ->
  MarshalToString (protocol.mkTrace (ApplicationName c) (Token c) evs xs "0.0.1" runtime_Version)
    = inl traceJSON ->
  requests (world_of (StopTracer w)) = requests w ++ [request_of c traceJSON].
Proof.
  intros Hw (i & t & g & Hact & He & Hx) Hm.
  pose proof Hact as (Hg & Ht & Hs & Hc).
  destruct (wf_live w i t g Hw Ht Hs) as [Hph Hp].
  rewrite (StopTracer_active w i t g c Hact).
  rewrite (tracer_Stop_spec i t g c w Ht Hph Hp Hc).
  unfold trace_of. rewrite He, Hx, Hm.
  destruct (Post _ _) as [[resp|] [err|]]; reflexivity.
Qed.

(** *** [stopped] is never reopened *)

Lemma keeps_stopped_refl w : keeps_stopped w w.
Proof. intros i t g Ht Hs. exists t, g. auto. Qed.

Lemma keeps_stopped_trans w1 w2 w3 :
  keeps_stopped w1 w2 -> keeps_stopped w2 w3 -> keeps_stopped w1 w3.
Proof.
  intros H12 H23 i t g Ht Hs. destruct (H12 i t g Ht Hs) as (t' & g' & Ht' & Hs').
  eapply H23; eassumption.
Qed.

Lemma never_reopens_same_tracers {A} (m : M A) :
  (forall w, tracers (world_of (m w)) = tracers w) -> never_reopens m.
Proof. intros H w i t g Ht Hs. rewrite H. exists t, g. auto. Qed.

Lemma never_reopens_bind {A B} (m : M A) (k : A -> M B) :
  never_reopens m -> (forall a, never_reopens (k a)) -> never_reopens (bind m k).
Proof.
  intros Hm Hk w. unfold bind. specialize (Hm w).
  destruct (m w) as [a w'|w'|w']; cbn [world_of] in *; try exact Hm.
  eapply keeps_stopped_trans; [exact Hm | apply Hk].
Qed.

Lemma never_reopens_ret {A} (a : A) : never_reopens (ret a).
Proof. intros w. apply keeps_stopped_refl. Qed.

Lemma never_reopens_panic {A} : never_reopens (@panic A).
Proof. intros w. apply keeps_stopped_refl. Qed.

Lemma never_reopens_block {A} : never_reopens (@block A).
Proof. intros w. apply keeps_stopped_refl. Qed.

Lemma never_reopens_logf m : never_reopens (logf m).
Proof. apply never_reopens_same_tracers. reflexivity. Qed.

Lemma never_reopens_store p c : never_reopens (store p c).
Proof. apply never_reopens_same_tracers. reflexivity. Qed.

Lemma never_reopens_deref p : never_reopens (deref p).
Proof. apply never_reopens_same_tracers. intros w. unfold deref. destruct (_ !! _); reflexivity. Qed.

Lemma never_reopens_tracer_at i : never_reopens (tracer_at i).
Proof.
  apply never_reopens_same_tracers. intros w. unfold tracer_at.
  destruct (_ !! _) as [[]|]; reflexivity.
Qed.

Lemma never_reopens_phase i : never_reopens (phase i).
Proof.
  apply never_reopens_same_tracers. intros w. unfold phase.
  destruct (_ !! _) as [[]|]; reflexivity.
Qed.

Lemma never_reopens_get_global : never_reopens get_global.
Proof. apply never_reopens_same_tracers. reflexivity. Qed.

Lemma never_reopens_set_global i : never_reopens (set_global i).
Proof. apply never_reopens_same_tracers. reflexivity. Qed.

Lemma never_reopens_client_Post r : never_reopens (client_Post r).
Proof. apply never_reopens_same_tracers. reflexivity. Qed.

Lemma never_reopens_when b m : never_reopens m -> never_reopens (when b m).
Proof. intros H. destruct b; [exact H | apply never_reopens_ret]. Qed.

Lemma never_reopens_new_tracer t : never_reopens (new_tracer t).
Proof.
  intros w i t0 g Ht Hs. cbn. exists t0, g. split; [|exact Hs].
  apply lookup_app_l_Some, Ht.
Qed.

Lemma never_reopens_update_tracer i f :
  (forall t, stopped t = Closed -> stopped (f t) = Closed) -> never_reopens (update_tracer i f).
Proof.
  intros Hf w j t g Ht Hs. unfold update_tracer.
  destruct (tracers w !! i) as [[ti gi]|] eqn:Hi; cbn; [|exists t, g; auto].
  destruct (decide (i = j)) as [<-|Hne].
  - rewrite list_lookup_insert_eq by (eapply lookup_lt_Some; exact Hi).
    rewrite Hi in Ht. injection Ht as <- <-. exists (f ti), gi. auto.
  - rewrite list_lookup_insert_ne by exact Hne. exists t, g. auto.
Qed.

Lemma never_reopens_set_phase i g : never_reopens (set_phase i g).
Proof.
  intros w j t g0 Ht Hs. unfold set_phase.
  destruct (tracers w !! i) as [[ti gi]|] eqn:Hi; cbn; [|exists t, g0; auto].
  destruct (decide (i = j)) as [<-|Hne].
  - rewrite list_lookup_insert_eq by (eapply lookup_lt_Some; exact Hi).
    rewrite Hi in Ht. injection Ht as <- <-. exists ti, g. auto.
  - rewrite list_lookup_insert_ne by exact Hne. exists t, g0. auto.
Qed.

Lemma never_reopens_unwinding {A} (m : M A) d :
  never_reopens m -> never_reopens d -> never_reopens (unwinding m d).
Proof.
  intros Hm Hd w. unfold unwinding. specialize (Hm w).
  destruct (m w) as [a w'|w'|w']; cbn [world_of] in *; try exact Hm.
  specialize (Hd w').
  destruct (d w') as [a w''|w''|w'']; cbn [world_of] in *;
    eapply keeps_stopped_trans; eassumption.
Qed.

Create HintDb reopen discriminated.
#[local] Hint Resolve never_reopens_ret never_reopens_panic never_reopens_block
  never_reopens_logf never_reopens_store never_reopens_deref never_reopens_tracer_at
  never_reopens_phase never_reopens_get_global never_reopens_set_global
  never_reopens_client_Post never_reopens_when never_reopens_new_tracer
  never_reopens_set_phase never_reopens_unwinding : reopen.

(** Goes through a computation built from the primitives. *)
Ltac reopen :=
  repeat first
    [ progress auto with reopen
    | apply never_reopens_bind; [|intros ?]
    | apply never_reopens_unwinding
    | apply never_reopens_when
    | apply never_reopens_update_tracer; intros ? ?; cbn; auto
    | match goal with
      | |- never_reopens (match ?x with _ => _ end) => destruct x
      | |- never_reopens (if ?x then _ else _) => destruct x
      end ].

Lemma never_reopens_sendTraces i : never_reopens (sendTraces i).
Proof. unfold sendTraces, getTraceReader. reopen. Qed.

Lemma never_reopens_Run_enter i : never_reopens (Run_enter i).
Proof. unfold Run_enter. reopen. Qed.

Lemma never_reopens_deferred_close_stopped i : never_reopens (deferred_close_stopped i).
Proof.
  unfold deferred_close_stopped. apply never_reopens_bind; [auto with reopen | intros t].
  destruct (stopped t); cbn [close]; [|apply never_reopens_panic].
  apply never_reopens_update_tracer. reflexivity.
Qed.

Lemma never_reopens_await_select i : never_reopens (await_select i).
Proof. pose proof never_reopens_Run_enter. unfold await_select. reopen. Qed.

Lemma never_reopens_Run_closeCmd i : never_reopens (Run_closeCmd i).
Proof.
  pose proof never_reopens_sendTraces. pose proof never_reopens_deferred_close_stopped.
  unfold Run_closeCmd, deferred_reset_running. reopen.
Qed.

Lemma never_reopens_tracer_Stop i : never_reopens (tracer_Stop i).
Proof.
  pose proof never_reopens_await_select. pose proof never_reopens_Run_closeCmd.
  unfold tracer_Stop. reopen.
Qed.

Lemma never_reopens_fillConfigDefaults p : never_reopens (fillConfigDefaults p).
Proof. unfold fillConfigDefaults, assign. reopen. Qed.

Lemma never_reopens_step o : never_reopens (step o).
Proof.
  pose proof never_reopens_await_select. pose proof never_reopens_tracer_Stop.
  pose proof never_reopens_fillConfigDefaults. pose proof never_reopens_Run_enter.
  destruct o; cbn [step].
  - unfold CreateTracer, absent_or_stopped. reopen.
  - unfold AddEvent, tracer_AddEvent, Run_event, absent_or_stopped. reopen.
  - unfold AddException, tracer_AddException, Run_exception, absent_or_stopped. reopen.
  - unfold StopTracer, absent_or_stopped. reopen.
  - intros w. unfold Sched. destruct (tracers w !! i) as [[t []]|] eqn:Ht;
      try apply keeps_stopped_refl.
    + apply never_reopens_Run_enter.
    + revert w Ht. unfold deferred_reset_running. intros w _. revert w.
      change (never_reopens (update_tracer i (set_running Open);;; set_phase i Exited)). reopen.
  - reopen.
Qed.

Lemma never_reopens_run os : never_reopens (run os).
Proof.
  induction os as [|o os IH]; cbn [run]; [apply never_reopens_ret|].
  apply never_reopens_bind; [apply never_reopens_step | intros _; exact IH].
Qed.

(** *** With a stopped singleton nothing is sent *)

Lemma inactive_same_buffers w w' : same_buffers w w' -> inactive w -> inactive w'.
Proof.
  intros (H1 & H2 & H3 & H4 & H5) [Hg | (i & t & g & Hg & Ht & Hs)].
  - left. congruence.
  - destruct (H5 i t g Ht) as (t' & g' & Ht' & _ & _ & _ & Hs').
    right. exists i, t', g'. split; [congruence|]. split; [exact Ht'|].
    unfold Stopped in *. rewrite Hs'. exact Hs.
Qed.

Lemma inactive_run_requests os w :
  wf w -> inactive w -> Forall (fun o => is_create o = false) os ->
  exists w', run os w = Ok tt w' /\ requests w' = requests w.
Proof.
  revert w. induction os as [|o os IH]; intros w Hw Hin Hos.
  - exists w. auto.
  - apply Forall_cons in Hos as [Ho Hos].
    assert (Hstep : exists w1, step o w = Ok tt w1 /\ requests w1 = requests w /\
                               wf w1 /\ inactive w1).
    { destruct o as [p|e|x| |j|p c]; cbn [step]; try discriminate.
      - eexists. split; [apply AddEvent_inactive, Hin|]. auto using wf_log_more.
      - eexists. split; [apply AddException_inactive, Hin|]. auto using wf_log_more.
      - eexists. split; [apply StopTracer_inactive, Hin|]. auto using wf_log_more.
      - destruct (Sched_spec j w Hw) as (w1 & Hs & Hw1 & Hsb).
        exists w1. split; [exact Hs|]. split; [apply Hsb|]. split; [exact Hw1|].
        eapply inactive_same_buffers; eassumption.
      - eexists. split; [reflexivity|]. split; [reflexivity|]. split; [apply wf_store, Hw|].
        exact Hin. }
    destruct Hstep as (w1 & Hs & Hq & Hw1 & Hin1).
    destruct (IH w1 Hw1 Hin1 Hos) as (w2 & Hr & Hq2).
    exists w2. rewrite run_cons. erewrite bind_Ok by exact Hs. split; [exact Hr | congruence].
Qed.

Lemma run_app_world os1 os2 w w1 :
  run os1 w = Ok tt w1 -> world_of (run (os1 ++ os2) w) = world_of (run os2 w1).
Proof. intros H. rewrite (run_app os1 os2 w w1 H). reflexivity. Qed.

Lemma length_zero_empty (s : string) : Nat.eqb (String.length s) 0 = true <-> s = "".
Proof. destruct s; cbn; split; intros; congruence. Qed.

(** * The claims *)

(** C1: from a state with no active tracer, [CreateTracer] on a [Config]
    with [ApplicationName = "svc"], [Token = "t1"] and
    [CollectorURL = "http://example"], then [AddEvent e1], [AddEvent e2],
    [AddException x1] and [StopTracer] - with the goroutines scheduled in
    any way between the calls - make exactly one request, a POST to
    ["http://example"] whose payload is the marshaled trace with
    [AppName = "svc"], [Token = "t1"], [Events = [e1; e2]] and
    [Exceptions = [x1]]; this is so whatever the collector answers. *)
Theorem scenario_single_post p c e1 e2 x1 traceJSON js1 js2 js3 js4 w :
  reachable w -> inactive w -> heap w !! p = Some c ->
  ApplicationName c = "svc" -> Token c = "t1" -> CollectorURL c = "http://example" ->
  MarshalToString (protocol.mkTrace "svc" "t1" [e1; e2] [x1] "0.0.1" runtime_Version)
    = inl traceJSON ->
  requests (world_of (run ([OpCreateTracer p] ++ map OpSched js1 ++
                           [OpAddEvent e1] ++ map OpSched js2 ++
                           [OpAddEvent e2] ++ map OpSched js3 ++
                           [OpAddException x1] ++ map OpSched js4 ++
                           [OpStopTracer]) w))
  = requests w ++ [mkRequest "http://example" "application/json" traceJSON].
Proof.
  intros Hr Hin Hc Ha Ht Hu Hm. apply wf_reachable in Hr.
  destruct (CreateTracer_buffered p c w Hr Hin Hc) as (w1 & H1 & Hw1 & Hb1 & Hq1).
  destruct (Sched_run_buffered js1 _ _ _ w1 Hw1 Hb1) as (w2 & H2 & Hw2 & Hb2 & Hq2).
  destruct (AddEvent_buffered e1 _ _ _ w2 Hw2 Hb2) as (w3 & H3 & Hw3 & Hb3 & Hq3).
  destruct (Sched_run_buffered js2 _ _ _ w3 Hw3 Hb3) as (w4 & H4 & Hw4 & Hb4 & Hq4).
  destruct (AddEvent_buffered e2 _ _ _ w4 Hw4 Hb4) as (w5 & H5 & Hw5 & Hb5 & Hq5).
  destruct (Sched_run_buffered js3 _ _ _ w5 Hw5 Hb5) as (w6 & H6 & Hw6 & Hb6 & Hq6).
  destruct (AddException_buffered x1 _ _ _ w6 Hw6 Hb6) as (w7 & H7 & Hw7 & Hb7 & Hq7).
  destruct (Sched_run_buffered js4 _ _ _ w7 Hw7 Hb7) as (w8 & H8 & Hw8 & Hb8 & Hq8).
  assert (Hone : forall o w w', step o w = Ok tt w' -> run [o] w = Ok tt w').
  { intros o v v' H. cbn [run]. erewrite bind_Ok by exact H. reflexivity. }
  rewrite (run_app_world _ _ _ _ (Hone (OpCreateTracer p) _ _ H1)).
  rewrite (run_app_world _ _ _ _ H2).
  rewrite (run_app_world _ _ _ _ (Hone (OpAddEvent e1) _ _ H3)).
  rewrite (run_app_world _ _ _ _ H4).
  rewrite (run_app_world _ _ _ _ (Hone (OpAddEvent e2) _ _ H5)).
  rewrite (run_app_world _ _ _ _ H6).
  rewrite (run_app_world _ _ _ _ (Hone (OpAddException x1) _ _ H7)).
  rewrite (run_app_world _ _ _ _ H8).
  cbn [run step]. unfold bind.
  assert (Hres : resolved c = mkConfig "svc" "t1" "http://example" (MetadataOnly c)
                                       (debug_resolved c)).
  { unfold resolved, token_resolved, url_resolved. rewrite Ha, Ht, Hu. reflexivity. }
  rewrite Hres in Hb8.
  pose proof (StopTracer_buffered _ _ _ traceJSON w8 Hw8 Hb8 Hm) as Hstop.
  destruct (StopTracer w8) as [[] w9|w9|w9]; unfold ret; cbn [world_of] in *; rewrite Hstop;
    unfold request_of; cbn; congruence.
Qed.

(** C2 (the code departs from it): a network error makes [client.Post]
    return a nil response with the error, [sendTraces] then reads
    [resp.Body], and the panic in the tracer's goroutine ends the process:
    [StopTracer] does not return. *)
Theorem StopTracer_network_error_panics w i t g c traceJSON err :
  reachable w -> active w i t g c ->
  MarshalToString (trace_of c t) = inl traceJSON ->
  Post (requests w) (request_of c traceJSON) = (None, Some err) ->
  exists w', StopTracer w = Panic w' /\
             forall e b, LogSendError e b ∉ drop (length (logged w)) (logged w').
Proof.
  intros Hr Hact Hm Hp. apply wf_reachable in Hr.
  pose proof Hact as (Hg & Ht & Hs & Hc).
  destruct (wf_live w i t g Hr Ht Hs) as [Hph Hok].
  rewrite (StopTracer_active w i t g c Hact).
  rewrite (tracer_Stop_spec i t g c w Ht Hph Hok Hc), Hm, Hp.
  eexists. split; [reflexivity|].
  cbn [logged log_more put_tracer add_request]. rewrite <- !app_assoc, drop_app_length.
  intros e b Hin. unfold entry_log, debug_log in Hin.
  apply list_elem_of_In in Hin.
  destruct g, (Debug c); cbn in Hin; intuition discriminate.
Qed.

(** C3 (the code departs from it): a response comes back from
    [client.Post] without an error whatever its status, 500 included, so
    [sendTraces] logs nothing about it; [StopTracer] returns, the request
    has been made and the tracer is stopped. *)
Theorem StopTracer_error_status_not_logged w i t g c traceJSON resp :
  reachable w -> active w i t g c ->
  MarshalToString (trace_of c t) = inl traceJSON ->
  Post (requests w) (request_of c traceJSON) = (Some resp, None) ->
  exists w' t' g',
    StopTracer w = Ok tt w' /\
    requests w' = requests w ++ [request_of c traceJSON] /\
    tracers w' !! i = Some (t', g') /\ Stopped t' = true /\
    forall e b, LogSendError e b ∉ drop (length (logged w)) (logged w').
Proof.
  intros Hr Hact Hm Hp. apply wf_reachable in Hr.
  pose proof Hact as (Hg & Ht & Hs & Hc).
  destruct (wf_live w i t g Hr Ht Hs) as [Hph Hok].
  assert (Hi : i < length (tracers w)) by (eapply lookup_lt_Some; exact Ht).
  rewrite (StopTracer_active w i t g c Hact).
  rewrite (tracer_Stop_spec i t g c w Ht Hph Hok Hc), Hm, Hp.
  eexists _, _, _. split; [reflexivity|]. split; [reflexivity|].
  split; [apply lookup_put_tracer; exact Hi|]. split; [reflexivity|].
  cbn [logged log_more put_tracer add_request]. rewrite <- !app_assoc, drop_app_length.
  intros e b Hin. unfold entry_log, debug_log in Hin.
  apply list_elem_of_In in Hin.
  destruct g, (Debug c); cbn in Hin; intuition discriminate.
Qed.

(** C4: once [Stop] has returned on a tracer, whatever the process does
    next, a further [Stop] on that tracer returns at once and changes
    nothing: no flush, no request, not even a line in the log.
    [StopTracer], while that tracer is still the singleton, only logs that
    there is no tracer. *)
Theorem Stop_idempotent i w w1 os w2 :
  tracer_Stop i w = Ok tt w1 -> run os w1 = Ok tt w2 ->
  tracer_Stop i w2 = Ok tt w2 /\
  (globalTracer w2 = Some i -> StopTracer w2 = Ok tt (log_more [LogNotInitialized] w2)).
Proof.
  intros Hstop Hrun.
  assert (H1 : exists t g, tracers w1 !! i = Some (t, g) /\ stopped t = Closed).
  { revert Hstop. unfold tracer_Stop, bind, tracer_at.
    destruct (tracers w !! i) as [[t g]|] eqn:Ht; [|discriminate].
    destruct (stopped t) eqn:Hs; cbn [isChannelPinged].
    - destruct (await_select i w) as [[] wa|wa|wa]; try discriminate.
      destruct (Run_closeCmd i wa) as [[] wb|wb|wb]; try discriminate.
      destruct (tracers wb !! i) as [[tb gb]|] eqn:Htb; try discriminate.
      destruct (stopped tb) eqn:Hsb; cbn [isChannelPinged]; try discriminate.
      intros [= <-]. eauto.
    - intros [= <-]. eauto. }
  destruct H1 as (t1 & g1 & Ht1 & Hs1).
  pose proof (never_reopens_run os w1 i t1 g1 Ht1 Hs1) as (t2 & g2 & Ht2 & Hs2).
  rewrite Hrun in Ht2. cbn [world_of] in Ht2.
  split.
  - unfold tracer_Stop. erewrite bind_Ok by (eapply tracer_at_eq; exact Ht2).
    rewrite Hs2. reflexivity.
  - intros Hg. apply StopTracer_inactive. right. exists i, t2, g2.
    split; [exact Hg|]. split; [exact Ht2|]. apply Stopped_true, Hs2.
Qed.

(** C5: while the singleton holds a tracer that has not stopped,
    [CreateTracer] only logs: the heap of configurations, the store of
    tracers with their goroutines, the singleton and the requests stay as
    they were.  An event added afterwards lands in the buffer of that same
    tracer. *)
Theorem CreateTracer_keeps_active p e w i t g :
  reachable w -> globalTracer w = Some i -> tracers w !! i = Some (t, g) -> Stopped t = false ->
  CreateTracer p w = Ok tt (log_more [LogAlreadyCreated] w) /\
  exists w' t' g',
    run [OpCreateTracer p; OpAddEvent e] w = Ok tt w' /\
    globalTracer w' = Some i /\ tracers w' !! i = Some (t', g') /\
    events t' = events t ++ [e] /\ exceptions t' = exceptions t /\ tConfig t' = tConfig t /\
    heap w' = heap w /\ length (tracers w') = length (tracers w) /\ requests w' = requests w.
Proof.
  intros Hr Hg Ht Hs. apply wf_reachable in Hr.
  destruct (wf_config w Hr i t g Ht) as [c Hc].
  assert (Hact : active w i t g c) by (repeat split; assumption).
  destruct (wf_live w i t g Hr Ht Hs) as [Hph Hok].
  assert (Hi : i < length (tracers w)) by (eapply lookup_lt_Some; exact Ht).
  pose proof (CreateTracer_active p w i t g c Hact) as Hcreate.
  split; [exact Hcreate|].
  set (w1 := log_more [LogAlreadyCreated] w) in *.
  assert (Hact1 : active w1 i t g c) by exact Hact.
  eexists _, _, _. split.
  - cbn [run step]. erewrite bind_Ok by exact Hcreate.
    erewrite bind_Ok
      by (rewrite (AddEvent_active e w1 i t g c Hact1);
          apply (tracer_AddEvent_spec i t g c e w1 Ht Hph Hok Hc)).
    reflexivity.
  - cbn. rewrite length_insert. split; [exact Hg|].
    split; [apply list_lookup_insert_eq, Hi|]. repeat split; reflexivity.
Qed.

(** C6: when marshaling fails in the flush that [StopTracer] triggers, the
    error is logged, no request is made, the loop is left with [stopped]
    closed and [StopTracer] returns; and as long as no new tracer is
    created nothing is sent any more, whatever is called. *)
Theorem StopTracer_marshal_error w i t g c err :
  reachable w -> active w i t g c ->
  MarshalToString (trace_of c t) = inr err ->
  exists w' l t',
    StopTracer w = Ok tt w' /\
    logged w' = logged w ++ l ++ [LogMarshalError err] /\
    requests w' = requests w /\
    tracers w' !! i = Some (t', AtDeferRunning) /\ Stopped t' = true /\
    forall os, Forall (fun o => is_create o = false) os ->
      exists w'', run os w' = Ok tt w'' /\ requests w'' = requests w.
Proof.
  intros Hr Hact Hm. apply wf_reachable in Hr.
  pose proof Hact as (Hg & Ht & Hs & Hc).
  destruct (wf_live w i t g Hr Ht Hs) as [Hph Hok].
  assert (Hi : i < length (tracers w)) by (eapply lookup_lt_Some; exact Ht).
  pose proof (StopTracer_active w i t g c Hact) as Hstop.
  rewrite (tracer_Stop_spec i t g c w Ht Hph Hok Hc), Hm in Hstop.
  eexists _, (entry_log g c ++ debug_log c LogStopsRunning), _.
  split; [exact Hstop|].
  split; [cbn; rewrite <- !app_assoc; reflexivity|].
  split; [reflexivity|].
  split; [apply lookup_put_tracer; exact Hi|]. split; [reflexivity|].
  intros os Hos.
  match type of Hstop with _ = Ok tt ?v => set (w' := v) in * end.
  assert (Hw' : wf w') by (eapply wf_StopTracer; eassumption).
  assert (Hin : inactive w').
  { right. exists i, (set_stopped Closed (set_running Closed t)), AtDeferRunning.
    split; [exact Hg|]. split; [apply lookup_put_tracer; exact Hi | reflexivity]. }
  destruct (inactive_run_requests os w' Hw' Hin Hos) as (w'' & Hrun & Hq).
  exists w''. split; [exact Hrun | exact Hq].
Qed.

(** C7: when the singleton is nil or its tracer has stopped, [AddEvent],
    [AddException] and [StopTracer] return, and all they do is log that the
    tracer is not initialized. *)
Theorem free_functions_without_tracer e x w :
  inactive w ->
  AddEvent e w = Ok tt (log_more [LogNotInitialized] w) /\
  AddException x w = Ok tt (log_more [LogNotInitialized] w) /\
  StopTracer w = Ok tt (log_more [LogNotInitialized] w).
Proof.
  intros H. split; [|split].
  - apply AddEvent_inactive, H.
  - apply AddException_inactive, H.
  - apply StopTracer_inactive, H.
Qed.

(** C8: on every [Config], [fillConfigDefaults] returns, and each field is
    settled by its own rule: an empty token becomes the value of
    [EPSAGON_TOKEN], a token that is not empty stays; an empty collector URL
    becomes ["http://" ++ region ++ ".tc.epsagon.com"] when [AWS_REGION]
    is not empty and ["http://us-east-1.tc.epsagon.com"] when it is, a URL
    that is not empty stays; [Debug] is raised when [EPSAGON_DEBUG] is
    ["TRUE"]; the other fields, and all but the heap cell and the log,
    stay. *)
Theorem fillConfigDefaults_rules p c w :
  heap w !! p = Some c ->
  exists w' c',
    fillConfigDefaults p w = Ok tt w' /\ heap w' = <[p := c']> (heap w) /\
    (Token c = "" -> Token c' = Getenv "EPSAGON_TOKEN") /\
    (Token c <> "" -> Token c' = Token c) /\
    (CollectorURL c = "" -> Getenv "AWS_REGION" <> "" ->
       CollectorURL c' = ("http://" ++ Getenv "AWS_REGION" ++ ".tc.epsagon.com")%string) /\
    (CollectorURL c = "" -> Getenv "AWS_REGION" = "" ->
       CollectorURL c' = "http://us-east-1.tc.epsagon.com") /\
    (CollectorURL c <> "" -> CollectorURL c' = CollectorURL c) /\
    Debug c' = Debug c || String.eqb (Getenv "EPSAGON_DEBUG") "TRUE" /\
    ApplicationName c' = ApplicationName c /\ MetadataOnly c' = MetadataOnly c /\
    tracers w' = tracers w /\ globalTracer w' = globalTracer w /\ requests w' = requests w.
Proof.
  intros H. exists (mkWorld (<[p := resolved c]> (heap w)) (tracers w) (globalTracer w)
                            (logged w ++ resolved_log c) (requests w)), (resolved c).
  split; [apply fillConfigDefaults_spec, H|]. split; [reflexivity|].
  cbn [resolved Token CollectorURL Debug ApplicationName MetadataOnly tracers globalTracer
       requests].
  unfold token_resolved, url_resolved, debug_resolved.
  repeat split.
  - intros ->. reflexivity.
  - intros Hne. destruct (Nat.eqb (String.length (Token c)) 0) eqn:E; [|reflexivity].
    apply length_zero_empty in E. contradiction.
  - intros -> Hne. cbn.
    destruct (Nat.eqb (String.length (Getenv "AWS_REGION")) 0) eqn:E; [|reflexivity].
    apply length_zero_empty in E. contradiction.
  - intros -> ->. reflexivity.
  - intros Hne. destruct (Nat.eqb (String.length (CollectorURL c)) 0) eqn:E; [|reflexivity].
    apply length_zero_empty in E. contradiction.
Qed.

(** *** The lifecycle of one tracer *)







(** C10: with no active tracer, [CreateTracer] writes the resolved token,
    collector URL and debug flag into the caller's [Config], and the new
    tracer, now the singleton, keeps the caller's address: what the caller
    writes there afterwards is what the flush reads. *)
Theorem CreateTracer_shares_config p c w :
  inactive w -> heap w !! p = Some c ->
  exists w' i t,
    CreateTracer p w = Ok tt w' /\
    heap w' !! p = Some (resolved c) /\
    globalTracer w' = Some i /\ tracers w' !! i = Some (t, AtEntry) /\ tConfig t = p /\
    forall c2 traceJSON,
      MarshalToString (protocol.mkTrace (ApplicationName c2) (Token c2) [] [] "0.0.1"
                                        runtime_Version) = inl traceJSON ->
      requests (world_of (run [OpAssign p c2; OpStopTracer] w'))
      = requests w ++ [mkRequest (CollectorURL c2) "application/json" traceJSON].
Proof.
  intros Hin Hc.
  eexists _, (length (tracers w)), (mkTracer p [] [] Open Open).
  split; [apply CreateTracer_inactive; eassumption|].
  assert (Hlast : forall h l r,
    tracers (mkWorld h (tracers w ++ [(mkTracer p [] [] Open Open, AtEntry)])
                     (Some (length (tracers w))) l r) !! length (tracers w)
    = Some (mkTracer p [] [] Open Open, AtEntry)).
  { intros. cbn. rewrite lookup_app_r by lia. rewrite Nat.sub_diag. reflexivity. }
  split; [apply lookup_insert_eq|]. split; [reflexivity|]. split; [apply Hlast|].
  split; [reflexivity|].
  intros c2 traceJSON Hm. cbn [run step]. erewrite bind_Ok by reflexivity.
  cbn beta. unfold bind.
  match goal with |- context [StopTracer ?v] => set (w2 := v) end.
  assert (Hact : active w2 (length (tracers w)) (mkTracer p [] [] Open Open) AtEntry c2).
  { split; [reflexivity|]. split; [apply Hlast|]. split; [reflexivity|]. apply lookup_insert_eq. }
  rewrite (StopTracer_active _ _ _ _ _ Hact).
  rewrite (tracer_Stop_spec _ _ AtEntry c2 w2 (Hlast _ _ _)); auto;
    [|split; reflexivity | apply lookup_insert_eq].
  unfold trace_of. cbn [events exceptions]. rewrite Hm.
  destruct (Post _ _) as [[resp|] [err|]]; reflexivity.
Qed.

(** * Further properties of the tracer *)

(** ** One tracer at a time *)

(** X1: in every reachable state at most one tracer of the store has not
    stopped, and it is the singleton. *)
Theorem at_most_one_active w i j t g t' g' :
  reachable w ->
  tracers w !! i = Some (t, g) -> tracers w !! j = Some (t', g') ->
  Stopped t = false -> Stopped t' = false ->
  i = j /\ globalTracer w = Some i.
Proof.
  intros Hr Hi Hj Hs Hs'. apply wf_reachable in Hr.
  assert (Hgi : globalTracer w = Some i).
  { destruct (decide (globalTracer w = Some i)) as [H|H]; [exact H|].
    pose proof (wf_single w Hr i t g Hi H) as Hc. apply Stopped_false in Hs. congruence. }
  assert (Hgj : globalTracer w = Some j).
  { destruct (decide (globalTracer w = Some j)) as [H|H]; [exact H|].
    pose proof (wf_single w Hr j t' g' Hj H) as Hc. apply Stopped_false in Hs'. congruence. }
  split; [congruence | exact Hgi].
Qed.

(** ** A whole session *)

Lemma ingest_run_buffered os c evs xs w :
  wf w -> buffered w c evs xs -> Forall (fun o => is_ingest o = true) os ->
  exists w', run os w = Ok tt w' /\ wf w' /\
             buffered w' c (evs ++ added_events os) (xs ++ added_exceptions os) /\
             requests w' = requests w.
Proof.
  revert w evs xs. induction os as [|o os IH]; intros w evs xs Hw Hb Hos.
  - exists w. cbn. rewrite !app_nil_r. auto.
  - apply Forall_cons in Hos as [Ho Hos].
    assert (Hstep : exists w1, step o w = Ok tt w1 /\ wf w1 /\ requests w1 = requests w /\
              buffered w1 c (evs ++ added_events [o]) (xs ++ added_exceptions [o])).
    { destruct o as [p|e|x| |j|p c0]; cbn in Ho; try discriminate; cbn [step].
      - destruct (AddEvent_buffered e c evs xs w Hw Hb) as (w1 & H1 & Hw1 & Hb1 & Hq1).
        exists w1. cbn. rewrite app_nil_r. auto.
      - destruct (AddException_buffered x c evs xs w Hw Hb) as (w1 & H1 & Hw1 & Hb1 & Hq1).
        exists w1. cbn. rewrite app_nil_r. auto.
      - destruct (Sched_spec j w Hw) as (w1 & H1 & Hw1 & Hsb).
        exists w1. cbn. rewrite !app_nil_r.
        split; [exact H1|]. split; [exact Hw1|]. split; [apply Hsb|].
        eapply buffered_same_buffers; eassumption. }
    destruct Hstep as (w1 & H1 & Hw1 & Hq1 & Hb1).
    destruct (IH w1 _ _ Hw1 Hb1 Hos) as (w2 & H2 & Hw2 & Hb2 & Hq2).
    exists w2. rewrite run_cons. erewrite bind_Ok by exact H1.
    split; [exact H2|]. split; [exact Hw2|]. split; [|congruence].
    rewrite <- !app_assoc in Hb2.
    destruct o; cbn in Hb2 |- *; exact Hb2.
Qed.

(** X2: a session - [CreateTracer] where no tracer is active, then any
    number of [AddEvent] and [AddException] calls with the goroutines
    scheduled in any way between them, then [StopTracer] - makes exactly
    one request, to the resolved collector URL, and its payload is the
    marshaled trace that holds the events of the [AddEvent] calls and the
    exceptions of the [AddException] calls of this session, each in the
    order of the calls, and nothing of an earlier session. *)
Theorem session_payload p c os traceJSON w :
  reachable w -> inactive w -> heap w !! p = Some c ->
  Forall (fun o => is_ingest o = true) os ->
  MarshalToString (protocol.mkTrace (ApplicationName c) (token_resolved c)
                                    (added_events os) (added_exceptions os)
                                    "0.0.1" runtime_Version) = inl traceJSON ->
  requests (world_of (run ([OpCreateTracer p] ++ os ++ [OpStopTracer]) w))
  = requests w ++ [mkRequest (url_resolved c) "application/json" traceJSON].
Proof.
  intros Hr Hin Hc Hos Hm. apply wf_reachable in Hr.
  destruct (CreateTracer_buffered p c w Hr Hin Hc) as (w1 & H1 & Hw1 & Hb1 & Hq1).
  destruct (ingest_run_buffered os _ _ _ w1 Hw1 Hb1 Hos) as (w2 & H2 & Hw2 & Hb2 & Hq2).
  assert (Hone : run [OpCreateTracer p] w = Ok tt w1).
  { cbn [run step]. erewrite bind_Ok by exact H1. reflexivity. }
  rewrite (run_app_world _ _ _ _ Hone), (run_app_world _ _ _ _ H2).
  cbn [run step]. unfold bind. cbn [app] in Hb2.
  pose proof (StopTracer_buffered _ _ _ traceJSON w2 Hw2 Hb2 Hm) as Hstop.
  destruct (StopTracer w2) as [[] w3|w3|w3]; unfold ret; cbn [world_of] in *; rewrite Hstop;
    unfold request_of; cbn; congruence.
Qed.

(** ** One flush for each tracer *)

Lemma stopped_count_app l1 l2 :
  stopped_count (l1 ++ l2) = stopped_count l1 + stopped_count l2.
Proof.
  induction l1 as [|[t g] l1 IH]; cbn -[Stopped]; [reflexivity|].
  rewrite IH. destruct (Stopped t); lia.
Qed.

Lemma stopped_count_insert l i t g t' g' :
  l !! i = Some (t, g) ->
  stopped_count (<[i := (t', g')]> l) + (if Stopped t then 1 else 0)
  = stopped_count l + (if Stopped t' then 1 else 0).
Proof.
  revert i. induction l as [|[t0 g0] l IH]; intros [|i] H; try discriminate.
  - injection H as -> ->.
    change (<[0 := (t', g')]> ((t, g) :: l)) with ((t', g') :: l).
    cbn [stopped_count]. destruct (Stopped t), (Stopped t'); lia.
  - change (l !! i = Some (t, g)) in H. specialize (IH i H). revert IH.
    change (<[S i := (t', g')]> ((t0, g0) :: l)) with ((t0, g0) :: <[i := (t', g')]> l).
    cbn [stopped_count]. destruct (Stopped t), (Stopped t'), (Stopped t0); lia.
Qed.

(** Replacing a tracer by one that has stopped as well, or not at all,
    keeps the count. *)
Lemma stopped_count_put_same i t g t' g' w :
  tracers w !! i = Some (t, g) -> stopped t' = stopped t ->
  stopped_count (tracers (put_tracer i (t', g') w)) = stopped_count (tracers w).
Proof.
  intros Ht Hs. pose proof (stopped_count_insert _ _ _ _ t' g' Ht) as H.
  unfold Stopped in H. rewrite Hs in H.
  change (tracers (put_tracer i (t', g') w)) with (<[i := (t', g')]> (tracers w)).
  revert H. destruct (isChannelPinged (stopped t)); lia.
Qed.

Lemma stopped_count_same_buffers w w' :
  same_buffers w w' -> stopped_count (tracers w') = stopped_count (tracers w).
Proof.
  intros (_ & _ & _ & Hlen & H).
  assert (Hgen : forall l l' : list (epsagonTracer * goroutine),
    length l' = length l ->
    (forall i t g, l !! i = Some (t, g) ->
       exists t' g', l' !! i = Some (t', g') /\ stopped t' = stopped t) ->
    stopped_count l' = stopped_count l).
  { clear. induction l as [|[t g] l IH]; intros [|[t' g'] l'] Hlen H; cbn in *;
      try discriminate; [reflexivity|].
    destruct (H 0 t g eq_refl) as (t1 & g1 & [= <- <-] & Hs).
    unfold Stopped. rewrite Hs. f_equal. apply IH; [lia|].
    intros i t0 g0 Hi. apply (H (S i) t0 g0 Hi). }
  apply Hgen; [exact Hlen|].
  intros i t g Ht. destruct (H i t g Ht) as (t' & g' & Ht' & _ & _ & _ & Hs). eauto.
Qed.

Lemma requests_bound_step o w w' :
  wf w -> length (requests w) <= stopped_count (tracers w) ->
  step o w = Ok tt w' -> length (requests w') <= stopped_count (tracers w').
Proof.
  intros Hw Hb. destruct o as [p|e|x| |j|p c0]; cbn [step].
  - destruct (wf_cases w Hw) as [Hin | (i & t & g & c & Hact)].
    + destruct (heap w !! p) as [c|] eqn:Hc.
      * rewrite (CreateTracer_inactive p c w Hin Hc). intros [= <-]. cbn.
        rewrite stopped_count_app. cbn. lia.
      * rewrite (CreateTracer_nil p w Hin Hc). discriminate.
    + rewrite (CreateTracer_active p w i t g c Hact). intros [= <-]. exact Hb.
  - destruct (wf_cases w Hw) as [Hin | (i & t & g & c & Hact)].
    + rewrite (AddEvent_inactive e w Hin). intros [= <-]. exact Hb.
    + rewrite (AddEvent_active e w i t g c Hact). destruct Hact as (Hg & Ht & Hs & Hc).
      destruct (wf_live w i t g Hw Ht Hs) as [Hph Hp].
      rewrite (tracer_AddEvent_spec i t g c e w Ht Hph Hp Hc). intros [= <-].
      cbn [log_more requests tracers].
      rewrite (stopped_count_put_same i t g _ _ w Ht) by reflexivity. exact Hb.
  - destruct (wf_cases w Hw) as [Hin | (i & t & g & c & Hact)].
    + rewrite (AddException_inactive x w Hin). intros [= <-]. exact Hb.
    + rewrite (AddException_active x w i t g c Hact). destruct Hact as (Hg & Ht & Hs & Hc).
      destruct (wf_live w i t g Hw Ht Hs) as [Hph Hp].
      rewrite (tracer_AddException_spec i t g c x w Ht Hph Hp Hc). intros [= <-].
      cbn [log_more requests tracers].
      rewrite (stopped_count_put_same i t g _ _ w Ht) by reflexivity. exact Hb.
  - destruct (wf_cases w Hw) as [Hin | (i & t & g & c & Hact)].
    + rewrite (StopTracer_inactive w Hin). intros [= <-]. exact Hb.
    + rewrite (StopTracer_active w i t g c Hact). destruct Hact as (Hg & Ht & Hs & Hc).
      destruct (wf_live w i t g Hw Ht Hs) as [Hph Hp].
      rewrite (tracer_Stop_spec i t g c w Ht Hph Hp Hc).
      pose proof (stopped_count_insert _ _ _ _
                    (set_stopped Closed (set_running Closed t)) AtDeferRunning Ht) as Hcount.
      rewrite Hs in Hcount. cbn in Hcount.
      destruct (MarshalToString (trace_of c t)) as [traceJSON|err].
      * destruct (Post _ _) as [[resp|] [err|]]; intros [= <-]; cbn;
          rewrite ?length_app; cbn; lia.
      * intros [= <-]. cbn. lia.
  - destruct (Sched_spec j w Hw) as (w1 & -> & Hw1 & Hsb). intros [= <-].
    rewrite (stopped_count_same_buffers _ _ Hsb).
    destruct Hsb as (_ & _ & -> & _). exact Hb.
  - intros [= <-]. exact Hb.
Qed.

(** X3: in every reachable state there are at most as many requests as
    tracers that have stopped: no tracer is flushed twice, and none is
    flushed without ending up stopped. *)
Theorem requests_bounded_by_stopped w :
  reachable w -> length (requests w) <= stopped_count (tracers w).
Proof.
  intros [os Hrun].
  assert (Hgen : forall os w0 w1, wf w0 -> length (requests w0) <= stopped_count (tracers w0) ->
                   run os w0 = Ok tt w1 -> length (requests w1) <= stopped_count (tracers w1)).
  { clear. induction os as [|o os IH]; intros w0 w1 Hw Hb.
    - intros [= <-]. exact Hb.
    - rewrite run_cons. unfold bind.
      destruct (step o w0) as [[] w2|w2|w2] eqn:Hs; try discriminate.
      apply IH; [eapply wf_step; eassumption | eapply requests_bound_step; eassumption]. }
  apply (Hgen os init w wf_init); [cbn; lia | exact Hrun].
Qed.

(** ** Blocking *)

(** X4: in every reachable state [AddEvent] and [AddException] return,
    and neither [StopTracer] nor [CreateTracer] leaves its caller blocked:
    the goroutine of a tracer that has not stopped can always get to the
    [select]. *)
Theorem exported_never_block w :
  reachable w ->
  (forall e, exists w', AddEvent e w = Ok tt w') /\
  (forall x, exists w', AddException x w = Ok tt w') /\
  (forall w', StopTracer w <> Blocked w') /\
  (forall p w', CreateTracer p w <> Blocked w').
Proof.
  intros Hr. apply wf_reachable in Hr.
  destruct (wf_cases w Hr) as [Hin | (i & t & g & c & Hact)].
  - split; [|split; [|split]].
    + intros e. rewrite (AddEvent_inactive e w Hin). eauto.
    + intros x. rewrite (AddException_inactive x w Hin). eauto.
    + intros w'. rewrite (StopTracer_inactive w Hin). discriminate.
    + intros p w'. destruct (heap w !! p) as [c|] eqn:Hc.
      * rewrite (CreateTracer_inactive p c w Hin Hc). discriminate.
      * rewrite (CreateTracer_nil p w Hin Hc). discriminate.
  - pose proof Hact as (Hg & Ht & Hs & Hc).
    destruct (wf_live w i t g Hr Ht Hs) as [Hph Hp].
    split; [|split; [|split]].
    + intros e. rewrite (AddEvent_active e w i t g c Hact).
      rewrite (tracer_AddEvent_spec i t g c e w Ht Hph Hp Hc). eauto.
    + intros x. rewrite (AddException_active x w i t g c Hact).
      rewrite (tracer_AddException_spec i t g c x w Ht Hph Hp Hc). eauto.
    + intros w'. rewrite (StopTracer_active w i t g c Hact).
      rewrite (tracer_Stop_spec i t g c w Ht Hph Hp Hc).
      destruct (MarshalToString (trace_of c t)); [|discriminate].
      destruct (Post _ _) as [[resp|] [err|]]; discriminate.
    + intros p w'. rewrite (CreateTracer_active p w i t g c Hact). discriminate.
Qed.

(** X5: the methods themselves do not look at [stopped]: on a tracer that
    has stopped the send of [AddEvent] and of [AddException] finds no
    receiver, and the caller is blocked for ever with nothing changed.
    Only the check of the exported functions keeps callers away. *)
Theorem methods_block_on_stopped w i t g e x :
  reachable w -> tracers w !! i = Some (t, g) -> Stopped t = true ->
  tracer_AddEvent i e w = Blocked w /\ tracer_AddException i x w = Blocked w.
Proof.
  intros Hr Ht Hs. apply wf_reachable in Hr.
  pose proof (wf_phase w Hr i t g Ht) as Hp. apply Stopped_true in Hs.
  assert (Hawait : await_select i w = Blocked w).
  { unfold await_select. erewrite bind_Ok by (eapply phase_eq; exact Ht).
    destruct g; cbn in Hp; destruct Hp as [? ?]; try congruence; reflexivity. }
  unfold tracer_AddEvent, tracer_AddException, bind. rewrite Hawait. auto.
Qed.

(** ** The error branch of the flush *)

(** X6: when [client.Post] returns an error together with a response (a
    refused redirect), [sendTraces] logs the error with an empty body
    whatever the body of the response holds - [respBody] has no room -
    and [StopTracer] returns with the request made and the tracer
    stopped. *)
Theorem error_with_response_logged_without_body w i t g c traceJSON resp err :
  reachable w -> active w i t g c ->
  MarshalToString (trace_of c t) = inl traceJSON ->
  Post (requests w) (request_of c traceJSON) = (Some resp, Some err) ->
  exists w' l t',
    StopTracer w = Ok tt w' /\
    logged w' = logged w ++ l ++ [LogSendError err ""] /\
    requests w' = requests w ++ [request_of c traceJSON] /\
    tracers w' !! i = Some (t', AtDeferRunning) /\ Stopped t' = true.
Proof.
  intros Hr Hact Hm Hp. apply wf_reachable in Hr.
  pose proof Hact as (Hg & Ht & Hs & Hc).
  destruct (wf_live w i t g Hr Ht Hs) as [Hph Hok].
  assert (Hi : i < length (tracers w)) by (eapply lookup_lt_Some; exact Ht).
  rewrite (StopTracer_active w i t g c Hact).
  rewrite (tracer_Stop_spec i t g c w Ht Hph Hok Hc), Hm, Hp.
  eexists _, ((entry_log g c ++ debug_log c LogStopsRunning) ++
              debug_log c (LogFinalTraces traceJSON)), _.
  split; [reflexivity|].
  split; [cbn; rewrite <- !app_assoc; reflexivity|].
  split; [reflexivity|].
  split; [apply lookup_put_tracer; exact Hi | reflexivity].
Qed.

(** ** More on the configuration resolver *)

Lemma url_resolved_not_empty c : url_resolved c <> "".
Proof.
  unfold url_resolved.
  destruct (Nat.eqb (String.length (CollectorURL c)) 0) eqn:E.
  - destruct (Nat.eqb (String.length (Getenv "AWS_REGION")) 0); discriminate.
  - intros H. rewrite H in E. discriminate.
Qed.

(** X7: after [fillConfigDefaults] the collector URL is never empty, while
    the token is left empty - and nothing complains - exactly when it was
    empty and [EPSAGON_TOKEN] is empty too. *)
Theorem resolved_url_never_empty p c w :
  heap w !! p = Some c ->
  exists w' c',
    fillConfigDefaults p w = Ok tt w' /\ heap w' !! p = Some c' /\
    CollectorURL c' <> "" /\
    (Token c' = "" <-> Token c = "" /\ Getenv "EPSAGON_TOKEN" = "").
Proof.
  intros H. eexists _, (resolved c).
  split; [apply fillConfigDefaults_spec, H|]. split; [apply lookup_insert_eq|].
  split; [apply url_resolved_not_empty|].
  cbn [resolved Token]. unfold token_resolved.
  destruct (Nat.eqb (String.length (Token c)) 0) eqn:E.
  - apply length_zero_empty in E. split; [auto | intros [_ ?]; assumption].
  - split; [|intros [? _]; assumption].
    intros Ht. rewrite Ht in E. discriminate.
Qed.

Lemma resolved_idempotent c : resolved (resolved c) = resolved c.
Proof.
  unfold resolved. cbn [ApplicationName Token CollectorURL MetadataOnly Debug].
  f_equal.
  - unfold token_resolved at 1. cbn [Token].
    destruct (Nat.eqb (String.length (token_resolved c)) 0) eqn:E; [|reflexivity].
    apply length_zero_empty in E. rewrite E. revert E. unfold token_resolved.
    destruct (Nat.eqb (String.length (Token c)) 0) eqn:E'; [auto|].
    intros E. rewrite E in E'. discriminate.
  - unfold url_resolved at 1. cbn [CollectorURL].
    destruct (Nat.eqb (String.length (url_resolved c)) 0) eqn:E; [|reflexivity].
    apply length_zero_empty in E. destruct (url_resolved_not_empty c E).
  - unfold debug_resolved. cbn [Debug]. destruct (Debug c), (String.eqb _ _); reflexivity.
Qed.

(** X8: [fillConfigDefaults] run a second time on the same [Config]
    changes no field of it. *)
Theorem fillConfigDefaults_twice p c w :
  heap w !! p = Some c ->
  exists w1 w2,
    fillConfigDefaults p w = Ok tt w1 /\ fillConfigDefaults p w1 = Ok tt w2 /\
    heap w2 = heap w1.
Proof.
  intros H. eexists _, _.
  split; [apply fillConfigDefaults_spec, H|].
  split; [apply fillConfigDefaults_spec; cbn; apply lookup_insert_eq|].
  cbn. rewrite resolved_idempotent, insert_insert_eq. reflexivity.
Qed.

(** ** What brings the process down *)

(** X9: a nil [*Config] is read only when a tracer is to be created:
    without an active tracer [CreateTracer(nil)] panics in
    [fillConfigDefaults] before anything has changed, with one it logs and
    returns like any other second [CreateTracer]. *)
Theorem CreateTracer_nil_config p w :
  heap w !! p = None ->
  (inactive w -> CreateTracer p w = Panic w) /\
  (forall i t g c, active w i t g c ->
     CreateTracer p w = Ok tt (log_more [LogAlreadyCreated] w)).
Proof.
  intros Hp. split.
  - intros Hin. unfold CreateTracer.
    erewrite bind_Ok by (apply absent_or_stopped_inactive; exact Hin). cbn [negb].
    unfold bind at 1, fillConfigDefaults, bind at 1, deref. rewrite Hp. reflexivity.
  - intros i t g c Hact. unfold CreateTracer.
    erewrite bind_Ok by (eapply absent_or_stopped_active; exact Hact). reflexivity.
Qed.

(** X10: in every reachable state a panic has one of two causes:
    [StopTracer] panics only when the marshaled trace was posted and
    [client.Post] came back with an error and no response, [CreateTracer]
    only when it is to create a tracer from a nil [*Config]; [AddEvent],
    [AddException] and the steps of the goroutines never panic. *)
Theorem panics_have_two_causes w :
  reachable w ->
  (forall w', StopTracer w = Panic w' ->
     exists i t g c traceJSON err,
       active w i t g c /\ MarshalToString (trace_of c t) = inl traceJSON /\
       Post (requests w) (request_of c traceJSON) = (None, Some err)) /\
  (forall p w', CreateTracer p w = Panic w' -> inactive w /\ heap w !! p = None) /\
  (forall e w', AddEvent e w <> Panic w') /\
  (forall x w', AddException x w <> Panic w') /\
  (forall j w', Sched j w <> Panic w').
Proof.
  intros Hr. apply wf_reachable in Hr.
  assert (Hsched : forall j w', Sched j w <> Panic w').
  { intros j w'. destruct (Sched_spec j w Hr) as (w1 & -> & _). discriminate. }
  destruct (wf_cases w Hr) as [Hin | (i & t & g & c & Hact)].
  - split; [|split; [|split; [|split]]]; try exact Hsched.
    + intros w'. rewrite (StopTracer_inactive w Hin). discriminate.
    + intros p w'. destruct (heap w !! p) as [c|] eqn:Hc; [|auto].
      rewrite (CreateTracer_inactive p c w Hin Hc). discriminate.
    + intros e w'. rewrite (AddEvent_inactive e w Hin). discriminate.
    + intros x w'. rewrite (AddException_inactive x w Hin). discriminate.
  - pose proof Hact as (Hg & Ht & Hs & Hc).
    destruct (wf_live w i t g Hr Ht Hs) as [Hph Hp].
    split; [|split; [|split; [|split]]]; try exact Hsched.
    + intros w'. rewrite (StopTracer_active w i t g c Hact).
      rewrite (tracer_Stop_spec i t g c w Ht Hph Hp Hc).
      destruct (MarshalToString (trace_of c t)) as [traceJSON|err] eqn:Hm; [|discriminate].
      destruct (Post _ _) as [[resp|] [err|]] eqn:Hpost; try discriminate.
      intros _. exists i, t, g, c, traceJSON, err. auto.
    + intros p w'. rewrite (CreateTracer_active p w i t g c Hact). discriminate.
    + intros e w'. rewrite (AddEvent_active e w i t g c Hact).
      rewrite (tracer_AddEvent_spec i t g c e w Ht Hph Hp Hc). discriminate.
    + intros x w'. rewrite (AddException_active x w i t g c Hact).
      rewrite (tracer_AddException_spec i t g c x w Ht Hph Hp Hc). discriminate.
Qed.

(** ** What the tracer leaves alone *)

(** X11: in every reachable state, whatever is called apart from a
    [CreateTracer] and the application's own writes - [AddEvent],
    [AddException], [StopTracer], a step of a goroutine - and however it
    ends, the [Config] values of the application are as they were. *)
Theorem heap_untouched o w :
  reachable w -> is_create o = false -> is_assign o = false ->
  heap (world_of (step o w)) = heap w.
Proof.
  intros Hr Hc Ha. apply wf_reachable in Hr.
  destruct o as [p|e|x| |j|p c0]; cbn in Hc, Ha; try discriminate; cbn [step].
  - destruct (wf_cases w Hr) as [Hin | (i & t & g & c & Hact)].
    + rewrite (AddEvent_inactive e w Hin). reflexivity.
    + rewrite (AddEvent_active e w i t g c Hact). destruct Hact as (Hg & Ht & Hs & Hcfg).
      destruct (wf_live w i t g Hr Ht Hs) as [Hph Hp].
      rewrite (tracer_AddEvent_spec i t g c e w Ht Hph Hp Hcfg). reflexivity.
  - destruct (wf_cases w Hr) as [Hin | (i & t & g & c & Hact)].
    + rewrite (AddException_inactive x w Hin). reflexivity.
    + rewrite (AddException_active x w i t g c Hact). destruct Hact as (Hg & Ht & Hs & Hcfg).
      destruct (wf_live w i t g Hr Ht Hs) as [Hph Hp].
      rewrite (tracer_AddException_spec i t g c x w Ht Hph Hp Hcfg). reflexivity.
  - destruct (wf_cases w Hr) as [Hin | (i & t & g & c & Hact)].
    + rewrite (StopTracer_inactive w Hin). reflexivity.
    + rewrite (StopTracer_active w i t g c Hact). destruct Hact as (Hg & Ht & Hs & Hcfg).
      destruct (wf_live w i t g Hr Ht Hs) as [Hph Hp].
      rewrite (tracer_Stop_spec i t g c w Ht Hph Hp Hcfg).
      destruct (MarshalToString (trace_of c t)); [|reflexivity].
      destruct (Post _ _) as [[resp|] [err|]]; reflexivity.
  - destruct (Sched_spec j w Hr) as (w1 & -> & _ & Hsb). apply Hsb.
Qed.

(** X12: with [Debug] off in the resolved [Config] of the active tracer,
    [AddEvent], [AddException] and a [StopTracer] whose request comes back
    without an error write nothing to the log. *)
Theorem quiet_without_debug w i t g c e x :
  reachable w -> active w i t g c -> Debug c = false ->
  logged (world_of (AddEvent e w)) = logged w /\
  logged (world_of (AddException x w)) = logged w /\
  forall traceJSON resp,
    MarshalToString (trace_of c t) = inl traceJSON ->
    Post (requests w) (request_of c traceJSON) = (resp, None) ->
    logged (world_of (StopTracer w)) = logged w.
Proof.
  intros Hr Hact Hd. apply wf_reachable in Hr.
  pose proof Hact as (Hg & Ht & Hs & Hc).
  destruct (wf_live w i t g Hr Ht Hs) as [Hph Hp].
  assert (Hentry : entry_log g c = []).
  { unfold entry_log, debug_log. rewrite Hd. destruct g; reflexivity. }
  assert (Hdebug : forall m, debug_log c m = []).
  { intros m. unfold debug_log. rewrite Hd. reflexivity. }
  split; [|split].
  - rewrite (AddEvent_active e w i t g c Hact).
    rewrite (tracer_AddEvent_spec i t g c e w Ht Hph Hp Hc). cbn.
    rewrite Hentry, Hdebug. cbn. rewrite ?app_nil_r. reflexivity.
  - rewrite (AddException_active x w i t g c Hact).
    rewrite (tracer_AddException_spec i t g c x w Ht Hph Hp Hc). cbn.
    rewrite Hentry. rewrite ?app_nil_r. reflexivity.
  - intros traceJSON resp Hm Hpost.
    rewrite (StopTracer_active w i t g c Hact).
    rewrite (tracer_Stop_spec i t g c w Ht Hph Hp Hc), Hm, Hpost.
    destruct resp; cbn; rewrite Hentry, !Hdebug; cbn; rewrite ?app_nil_r; reflexivity.
Qed.
End Tracer.

Arguments OpCreateTracer {Event Exception}.
Arguments OpAddEvent {Event Exception}.
Arguments OpAddException {Event Exception}.
Arguments OpStopTracer {Event Exception}.
Arguments OpSched {Event Exception}.
Arguments OpAssign {Event Exception}.
Arguments mkTracer {Event Exception}.
Arguments mkWorld {Event Exception error}.
Arguments world_of {Event Exception error A}.
Arguments Ok {Event Exception error A}.
Arguments Panic {Event Exception error A}.
Arguments heap {Event Exception error}.
Arguments tracers {Event Exception error}.
Arguments globalTracer {Event Exception error}.
Arguments logged {Event Exception error}.
Arguments requests {Event Exception error}.
Arguments Running {Event Exception}.
Arguments Stopped {Event Exception}.
Arguments events {Event Exception}.
Arguments exceptions {Event Exception}.
Arguments tConfig {Event Exception}.

(** * The model at work on the sample *)

(** The model with the sample's environment, marshaler and runtime, and the
    collector [post]. *)
Abbreviation sample_run post :=
  (run nat nat string Sample.Getenv Sample.runtime_Version Sample.MarshalToString post).
Abbreviation sample_StopTracer post :=
  (StopTracer nat nat string Sample.runtime_Version Sample.MarshalToString post).
Abbreviation sample_reachable post :=
  (reachable nat nat string Sample.Getenv Sample.runtime_Version Sample.MarshalToString post).
Abbreviation sample_init := (init nat nat string).

(** A process whose application holds [Sample.config] at address [0]. *)
Abbreviation with_config := (@mkWorld nat nat string {[0 := Sample.config]} [] None [] []).

(** The same process after [CreateTracer] on that address. *)
Abbreviation created :=
  (@mkWorld nat nat string {[0 := Sample.config]} [(mkTracer 0 [] [] Open Open, AtEntry)]
            (Some 0) [] []).

Lemma with_config_reachable post : sample_reachable post with_config.
Proof. exists [OpAssign 0 Sample.config]. vm_compute. reflexivity. Qed.

Lemma created_reachable post : sample_reachable post created.
Proof. exists [OpAssign 0 Sample.config; OpCreateTracer 0]. vm_compute. reflexivity. Qed.

(** C1 on the sample: the one request carries both events. *)
Lemma scenario_single_post_witness :
  requests (world_of (sample_run Sample.Post_ok
                        ([OpCreateTracer 0] ++ map OpSched [0] ++
                         [OpAddEvent 1] ++ map OpSched [] ++
                         [OpAddEvent 2] ++ map OpSched [0; 1] ++
                         [OpAddException 3] ++ map OpSched [] ++
                         [OpStopTracer]) with_config))
  = [] ++ [mkRequest "http://example" "application/json" "svc:t1:1,2"].
Proof.
  apply (scenario_single_post nat nat string Sample.Getenv Sample.runtime_Version
           Sample.MarshalToString Sample.Post_ok 0 Sample.config 1 2 3 "svc:t1:1,2"
           [0] [] [0; 1] [] with_config).
  - apply with_config_reachable.
  - left. reflexivity.
  - vm_compute. reflexivity.
  - reflexivity.
  - reflexivity.
  - reflexivity.
  - vm_compute. reflexivity.
Defined.

(** The tracer of [created]. *)
Abbreviation fresh_tracer := (@mkTracer nat nat 0 [] [] Open Open).

Lemma created_active : active nat nat string created 0 fresh_tracer AtEntry Sample.config.
Proof. repeat split. Qed.

(** C2 on the sample: the collector cannot be reached and the process dies
    in [StopTracer]. *)
Lemma StopTracer_network_error_panics_witness :
  exists w', sample_StopTracer Sample.Post_unreachable created = Panic w' /\
             forall e b, LogSendError nat string e b ∉ drop (length (logged created)) (logged w').
Proof.
  apply (StopTracer_network_error_panics nat nat string Sample.Getenv Sample.runtime_Version
           Sample.MarshalToString Sample.Post_unreachable created 0 fresh_tracer AtEntry
           Sample.config "svc:t1:" "connection refused").
  - apply created_reachable.
  - apply created_active.
  - reflexivity.
  - reflexivity.
Defined.

(** C3 on the sample: the collector answers 500, [StopTracer] returns and
    the log says nothing of it. *)
Lemma StopTracer_error_status_not_logged_witness :
  exists w' t' g',
    sample_StopTracer Sample.Post_500 created = Ok tt w' /\
    requests w' = requests created ++ [mkRequest "http://example" "application/json" "svc:t1:"] /\
    tracers w' !! 0 = Some (t', g') /\ Stopped t' = true /\
    forall e b, LogSendError nat string e b ∉ drop (length (logged created)) (logged w').
Proof.
  apply (StopTracer_error_status_not_logged nat nat string Sample.Getenv Sample.runtime_Version
           Sample.MarshalToString Sample.Post_500 created 0 fresh_tracer AtEntry
           Sample.config "svc:t1:" (mkResponse 500 "internal error")).
  - apply created_reachable.
  - apply created_active.
  - reflexivity.
  - reflexivity.
Defined.

(** C4 on the sample: after [Stop], an event and a turn of the scheduler,
    [Stop] again changes nothing. *)
Lemma Stop_idempotent_witness :
  let stop := tracer_Stop nat nat string Sample.runtime_Version Sample.MarshalToString
                          Sample.Post_ok 0 in
  let w2 := world_of (sample_run Sample.Post_ok [OpAddEvent 5; OpSched 0]
                         (world_of (stop created))) in
  stop w2 = Ok tt w2 /\
  (globalTracer w2 = Some 0 ->
   sample_StopTracer Sample.Post_ok w2 = Ok tt (log_more nat nat string [LogNotInitialized nat string] w2)).
Proof.
  cbv zeta.
  apply (Stop_idempotent nat nat string Sample.Getenv Sample.runtime_Version
           Sample.MarshalToString Sample.Post_ok 0 created
           (world_of (tracer_Stop nat nat string Sample.runtime_Version Sample.MarshalToString
                                  Sample.Post_ok 0 created))
           [OpAddEvent 5; OpSched 0]).
  - vm_compute. reflexivity.
  - vm_compute. reflexivity.
Defined.

(** C5 on the sample: a second [CreateTracer], on another address, only
    logs, and the event added next is in the first tracer. *)
Lemma CreateTracer_keeps_active_witness :
  CreateTracer nat nat string Sample.Getenv 7 created
  = Ok tt (log_more nat nat string [LogAlreadyCreated nat string] created) /\
  exists w' t' g',
    sample_run Sample.Post_ok [OpCreateTracer 7; OpAddEvent 4] created = Ok tt w' /\
    globalTracer w' = Some 0 /\ tracers w' !! 0 = Some (t', g') /\
    events t' = events fresh_tracer ++ [4] /\ exceptions t' = exceptions fresh_tracer /\
    tConfig t' = tConfig fresh_tracer /\
    heap w' = heap created /\ length (tracers w') = length (tracers created) /\
    requests w' = requests created.
Proof.
  apply (CreateTracer_keeps_active nat nat string Sample.Getenv Sample.runtime_Version
           Sample.MarshalToString Sample.Post_ok 7 4 created 0 fresh_tracer AtEntry).
  - apply created_reachable.
  - reflexivity.
  - reflexivity.
  - reflexivity.
Defined.

(** The sample process after [AddEvent 0]: the buffer holds a record the
    marshaler refuses. *)
Abbreviation unmarshalable :=
  (@mkWorld nat nat string {[0 := Sample.config]} [(mkTracer 0 [0] [] Open Closed, AtSelect)]
            (Some 0) [] []).

(** C6 on the sample. *)
Lemma StopTracer_marshal_error_witness :
  exists w' l t',
    sample_StopTracer Sample.Post_ok unmarshalable = Ok tt w' /\
    logged w' = logged unmarshalable ++ l ++ [LogMarshalError nat string "nil event"] /\
    requests w' = requests unmarshalable /\
    tracers w' !! 0 = Some (t', AtDeferRunning) /\ Stopped t' = true /\
    forall os, Forall (fun o => is_create nat nat o = false) os ->
      exists w'', sample_run Sample.Post_ok os w' = Ok tt w'' /\
                  requests w'' = requests unmarshalable.
Proof.
  apply (StopTracer_marshal_error nat nat string Sample.Getenv Sample.runtime_Version
           Sample.MarshalToString Sample.Post_ok unmarshalable 0
           (mkTracer 0 [0] [] Open Closed) AtSelect Sample.config "nil event").
  - exists [OpAssign 0 Sample.config; OpCreateTracer 0; OpAddEvent 0]. vm_compute. reflexivity.
  - repeat split.
  - reflexivity.
Defined.

(** C7 on the sample: no tracer has been created. *)
Lemma free_functions_without_tracer_witness :
  AddEvent nat nat string 1 with_config
  = Ok tt (log_more nat nat string [LogNotInitialized nat string] with_config) /\
  AddException nat nat string 2 with_config
  = Ok tt (log_more nat nat string [LogNotInitialized nat string] with_config) /\
  sample_StopTracer Sample.Post_ok with_config
  = Ok tt (log_more nat nat string [LogNotInitialized nat string] with_config).
Proof.
  apply (free_functions_without_tracer nat nat string Sample.runtime_Version
           Sample.MarshalToString Sample.Post_ok 1 2 with_config).
  left. reflexivity.
Defined.

(** A process whose application holds [Sample.bare_config] at address [0]. *)
Abbreviation with_bare_config :=
  (@mkWorld nat nat string {[0 := Sample.bare_config]} [] None [] []).

(** C8 on the sample: the token and the region come from the environment. *)
Lemma fillConfigDefaults_rules_witness :
  exists w' c',
    fillConfigDefaults nat nat string Sample.Getenv 0 with_bare_config = Ok tt w' /\
    heap w' !! 0 = Some c' /\
    Token c' = "tok" /\ CollectorURL c' = "http://eu-west-1.tc.epsagon.com" /\
    Debug c' = false /\ ApplicationName c' = "svc".
Proof.
  destruct (fillConfigDefaults_rules nat nat string Sample.Getenv 0 Sample.bare_config
              with_bare_config)
    as (w' & c' & Hfill & Hheap & Htok & _ & Hurl & _ & _ & Hdebug & Hname & _).
  - vm_compute. reflexivity.
  - exists w', c'. split; [exact Hfill|]. split; [rewrite Hheap; apply lookup_insert_eq|].
    split; [apply Htok; reflexivity|].
    split; [apply Hurl; [reflexivity | discriminate]|].
    split; [rewrite Hdebug; reflexivity | exact Hname].
Defined.

(** The sample process when [StopTracer] has just returned: [stopped] is
    closed and the goroutine has its last step to take. *)
Abbreviation flushed :=
  (@mkWorld nat nat string {[0 := Sample.config]}
            [(mkTracer 0 [] [] Closed Closed, AtDeferRunning)] (Some 0) []
            [mkRequest "http://example" "application/json" "svc:t1:"]).



(** C10 on the sample: the caller reads the defaults at its own address,
    and the URL it writes there afterwards is where the flush posts. *)
Lemma CreateTracer_shares_config_witness :
  exists w' i t,
    CreateTracer nat nat string Sample.Getenv 0 with_bare_config = Ok tt w' /\
    heap w' !! 0 = Some (mkConfig "svc" "tok" "http://eu-west-1.tc.epsagon.com" false false) /\
    globalTracer w' = Some i /\ tracers w' !! i = Some (t, AtEntry) /\ tConfig t = 0 /\
    requests (world_of (sample_run Sample.Post_ok
                          [OpAssign 0 (mkConfig "app" "t2" "http://elsewhere" false false);
                           OpStopTracer] w'))
    = requests with_bare_config ++ [mkRequest "http://elsewhere" "application/json" "app:t2:"].
Proof.
  destruct (CreateTracer_shares_config nat nat string Sample.Getenv Sample.runtime_Version
              Sample.MarshalToString Sample.Post_ok 0 Sample.bare_config with_bare_config)
    as (w' & i & t & Hcreate & Hheap & Hglobal & Htracer & Halias & Hflush).
  - left. reflexivity.
  - vm_compute. reflexivity.
  - exists w', i, t. split; [exact Hcreate|]. split; [exact Hheap|].
    split; [exact Hglobal|]. split; [exact Htracer|]. split; [exact Halias|].
    apply (Hflush (mkConfig "app" "t2" "http://elsewhere" false false) "app:t2:").
    reflexivity.
Defined.

(** * The further properties on the sample *)

Arguments Blocked {Event Exception error A}.

(** The sample process after a first session that held the event [9]: its
    tracer has stopped and its goroutine has returned. *)
Abbreviation after_session :=
  (@mkWorld nat nat string {[0 := Sample.config]}
            [(mkTracer 0 [9] [] Closed Open, Exited)] (Some 0) []
            [mkRequest "http://example" "application/json" "svc:t1:9"]).

(** The same after a second [CreateTracer]. *)
Abbreviation second_created :=
  (@mkWorld nat nat string {[0 := Sample.config]}
            [(mkTracer 0 [9] [] Closed Open, Exited); (mkTracer 0 [] [] Open Open, AtEntry)]
            (Some 1) []
            [mkRequest "http://example" "application/json" "svc:t1:9"]).

Lemma after_session_reachable : sample_reachable Sample.Post_ok after_session.
Proof.
  exists [OpAssign 0 Sample.config; OpCreateTracer 0; OpAddEvent 9; OpStopTracer; OpSched 0].
  vm_compute. reflexivity.
Qed.

Lemma second_created_reachable : sample_reachable Sample.Post_ok second_created.
Proof.
  exists [OpAssign 0 Sample.config; OpCreateTracer 0; OpAddEvent 9; OpStopTracer; OpSched 0;
          OpCreateTracer 0].
  vm_compute. reflexivity.
Qed.

(** X1 on the sample: of the two tracers of [second_created] only the
    second has not stopped. *)
Lemma at_most_one_active_witness : 1 = 1 /\ globalTracer second_created = Some 1.
Proof.
  apply (at_most_one_active nat nat string Sample.Getenv Sample.runtime_Version
           Sample.MarshalToString Sample.Post_ok second_created 1 1
           fresh_tracer AtEntry fresh_tracer AtEntry).
  - apply second_created_reachable.
  - reflexivity.
  - reflexivity.
  - reflexivity.
  - reflexivity.
Defined.

(** X2 on the sample: the second session posts its own two events, and
    not the [9] of the first. *)
Lemma session_payload_witness :
  requests (world_of (sample_run Sample.Post_ok
                        ([OpCreateTracer 0] ++
                         [OpAddEvent 1; OpSched 1; OpAddException 7; OpAddEvent 2] ++
                         [OpStopTracer]) after_session))
  = requests after_session ++ [mkRequest "http://example" "application/json" "svc:t1:1,2"].
Proof.
  apply (session_payload nat nat string Sample.Getenv Sample.runtime_Version
           Sample.MarshalToString Sample.Post_ok 0 Sample.config
           [OpAddEvent 1; OpSched 1; OpAddException 7; OpAddEvent 2] "svc:t1:1,2"
           after_session).
  - apply after_session_reachable.
  - right. exists 0, (mkTracer 0 [9] [] Closed Open), Exited. repeat split.
  - vm_compute. reflexivity.
  - repeat constructor.
  - vm_compute. reflexivity.
Defined.

(** X3 on the sample: one request, one stopped tracer. *)
Lemma requests_bounded_by_stopped_witness :
  length (requests second_created) <= stopped_count nat nat (tracers second_created).
Proof.
  apply (requests_bounded_by_stopped nat nat string Sample.Getenv Sample.runtime_Version
           Sample.MarshalToString Sample.Post_ok second_created).
  apply second_created_reachable.
Defined.

(** X4 on the sample, the collector out of reach. *)
Lemma exported_never_block_witness :
  (forall e, exists w', AddEvent nat nat string e created = Ok tt w') /\
  (forall x, exists w', AddException nat nat string x created = Ok tt w') /\
  (forall w', sample_StopTracer Sample.Post_unreachable created <> Blocked w') /\
  (forall p w', CreateTracer nat nat string Sample.Getenv p created <> Blocked w').
Proof.
  apply (exported_never_block nat nat string Sample.Getenv Sample.runtime_Version
           Sample.MarshalToString Sample.Post_unreachable created).
  apply created_reachable.
Defined.

(** X5 on the sample: the methods on the stopped tracer of the first
    session. *)
Lemma methods_block_on_stopped_witness :
  tracer_AddEvent nat nat string 0 3 after_session = Blocked after_session /\
  tracer_AddException nat nat string 0 4 after_session = Blocked after_session.
Proof.
  apply (methods_block_on_stopped nat nat string Sample.Getenv Sample.runtime_Version
           Sample.MarshalToString Sample.Post_ok after_session 0
           (mkTracer 0 [9] [] Closed Open) Exited 3 4).
  - apply after_session_reachable.
  - reflexivity.
  - reflexivity.
Defined.

(** X6 on the sample: the body ["moved"] of the response is not in the
    log. *)
Lemma error_with_response_logged_without_body_witness :
  exists w' l t',
    sample_StopTracer SampleErrors.Post_refused_redirect created = Ok tt w' /\
    logged w' = logged created ++ l ++ [LogSendError nat string "stopped after 10 redirects" ""] /\
    requests w' = requests created ++ [mkRequest "http://example" "application/json" "svc:t1:"] /\
    tracers w' !! 0 = Some (t', AtDeferRunning) /\ Stopped t' = true.
Proof.
  apply (error_with_response_logged_without_body nat nat string Sample.Getenv
           Sample.runtime_Version Sample.MarshalToString SampleErrors.Post_refused_redirect
           created 0 fresh_tracer AtEntry Sample.config "svc:t1:" (mkResponse 302 "moved")
           "stopped after 10 redirects").
  - apply created_reachable.
  - apply created_active.
  - reflexivity.
  - reflexivity.
Defined.

(** X7 on the sample: the URL is filled in, and so is the token, the
    environment holding one. *)
Lemma resolved_url_never_empty_witness :
  exists w' c',
    fillConfigDefaults nat nat string Sample.Getenv 0 with_bare_config = Ok tt w' /\
    heap w' !! 0 = Some c' /\ CollectorURL c' <> "" /\ Token c' <> "".
Proof.
  destruct (resolved_url_never_empty nat nat string Sample.Getenv 0 Sample.bare_config
              with_bare_config)
    as (w' & c' & Hfill & Hheap & Hurl & Htoken).
  - vm_compute. reflexivity.
  - exists w', c'. split; [exact Hfill|]. split; [exact Hheap|]. split; [exact Hurl|].
    intros Hempty. apply Htoken in Hempty as [_ Henv]. discriminate Henv.
Defined.

(** X8 on the sample. *)
Lemma fillConfigDefaults_twice_witness :
  exists w1 w2,
    fillConfigDefaults nat nat string Sample.Getenv 0 with_bare_config = Ok tt w1 /\
    fillConfigDefaults nat nat string Sample.Getenv 0 w1 = Ok tt w2 /\
    heap w2 = heap w1.
Proof.
  apply (fillConfigDefaults_twice nat nat string Sample.Getenv 0 Sample.bare_config
           with_bare_config).
  vm_compute. reflexivity.
Defined.

(** X9 on the sample: nothing is allocated at address [5]. *)
Lemma CreateTracer_nil_config_witness :
  (inactive nat nat string with_config ->
   CreateTracer nat nat string Sample.Getenv 5 with_config = Panic with_config) /\
  (forall i t g c, active nat nat string with_config i t g c ->
     CreateTracer nat nat string Sample.Getenv 5 with_config
     = Ok tt (log_more nat nat string [LogAlreadyCreated nat string] with_config)).
Proof.
  apply (CreateTracer_nil_config nat nat string Sample.Getenv 5 with_config).
  vm_compute. reflexivity.
Defined.

(** X10 on the sample, the collector out of reach: the panic of
    [StopTracer] has the cause the theorem names, and nothing else
    panics but a [CreateTracer] that cannot happen here. *)
Lemma panics_have_two_causes_witness :
  (forall w', sample_StopTracer Sample.Post_unreachable created = Panic w' ->
     exists i t g c traceJSON err,
       active nat nat string created i t g c /\
       Sample.MarshalToString (trace_of nat nat Sample.runtime_Version c t) = inl traceJSON /\
       Sample.Post_unreachable (requests created) (request_of c traceJSON) = (None, Some err)) /\
  (forall p w', CreateTracer nat nat string Sample.Getenv p created = Panic w' ->
     inactive nat nat string created /\ heap created !! p = None) /\
  (forall e w', AddEvent nat nat string e created <> Panic w') /\
  (forall x w', AddException nat nat string x created <> Panic w') /\
  (forall j w', Sched nat nat string j created <> Panic w').
Proof.
  apply (panics_have_two_causes nat nat string Sample.Getenv Sample.runtime_Version
           Sample.MarshalToString Sample.Post_unreachable created).
  apply created_reachable.
Defined.

(** X11 on the sample: [StopTracer]. *)
Lemma heap_untouched_witness :
  heap (world_of (step nat nat string Sample.Getenv Sample.runtime_Version
                       Sample.MarshalToString Sample.Post_ok OpStopTracer created))
  = heap created.
Proof.
  apply (heap_untouched nat nat string Sample.Getenv Sample.runtime_Version
           Sample.MarshalToString Sample.Post_ok OpStopTracer created).
  - apply created_reachable.
  - reflexivity.
  - reflexivity.
Defined.

(** X12 on the sample, whose [Config] has [Debug] off. *)
Lemma quiet_without_debug_witness :
  logged (world_of (AddEvent nat nat string 1 created)) = logged created /\
  logged (world_of (AddException nat nat string 2 created)) = logged created /\
  forall traceJSON resp,
    Sample.MarshalToString (trace_of nat nat Sample.runtime_Version Sample.config fresh_tracer)
      = inl traceJSON ->
    Sample.Post_ok (requests created) (request_of Sample.config traceJSON) = (resp, None) ->
    logged (world_of (sample_StopTracer Sample.Post_ok created)) = logged created.
Proof.
  apply (quiet_without_debug nat nat string Sample.Getenv Sample.runtime_Version
           Sample.MarshalToString Sample.Post_ok created 0 fresh_tracer AtEntry Sample.config
           1 2).
  - apply created_reachable.
  - apply created_active.
  - reflexivity.
Defined.
